(** * ReactContext: the global-context publish barrier

    A shallow embedding of [packages/react/src/ReactContext.js]:
    [contextDidUpdate], [setContext] and [createContext], together with the
    closures [setContext] hands to the roots.

    Context objects live in a heap and are named by a reference, because the
    closures capture the context object and mutate it long after [setContext]
    has returned.  The closure variable [numRootsThatNeedUpdate] of each
    publish lives in a second heap for the same reason: every root receives
    the same function object, hence the same counter. *)

From stdpp Require Import gmap list strings.
From Stdlib Require Import ZArith Lia.

(** ** JavaScript values *)

(** The values the module inspects.  Numbers are the integer-valued ones;
    functions and objects are known by identity only. *)
Inductive JsValue :=
| JsUndefined
| JsNull
| JsBoolean (b : bool)
| JsNumber (n : Z)
| JsString (str : string)
| JsFunction (f : nat)
| JsObject (o : nat).

#[global] Instance JsValue_eq_dec : EqDecision JsValue.
Proof. solve_decision. Defined.

(** The [typeof] operator. *)
Definition typeof (v : JsValue) : string :=
  match v with
  | JsUndefined => "undefined"
  | JsNull => "object"
  | JsBoolean _ => "boolean"
  | JsNumber _ => "number"
  | JsString _ => "string"
  | JsFunction _ => "function"
  | JsObject _ => "object"
  end.

(** [userCallback: (() => mixed) | void | null]. *)
Inductive UserCallback :=
| CallbackUndefined
| CallbackNull
| CallbackFn (cb : nat).

(** The two symbols imported from [shared/ReactSymbols], known by name. *)
Inductive ReactSymbol := REACT_PROVIDER_TYPE | REACT_CONTEXT_TYPE.

#[global] Instance ReactSymbol_eq_dec : EqDecision ReactSymbol.
Proof. solve_decision. Defined.

(** ** Context objects *)

(** [context.Provider = {$$typeof: REACT_PROVIDER_TYPE, _context: context}]. *)
Record ProviderObject := {
  provider_typeof : ReactSymbol;
  provider_context : nat
}.

(** [context.Consumer]: the context itself in production, a separate object
    that proxies back to the context in development.  The accessors of the
    development object only forward to the context and warn once; they are
    not part of the publish protocol and are left out. *)
Inductive ConsumerObject :=
| ConsumerIsContext (context : nat)
| ConsumerProxy (consumer_typeof : ReactSymbol) (consumer_context : nat)
                (consumer_calculateChangedBits : JsValue).

(** [setContext.bind(null, context)]. *)
Inductive BoundSetContext := SetContextBoundTo (context : nat).

Record Context := {
  context_typeof : ReactSymbol;            (* $$typeof *)
  _calculateChangedBits : JsValue;
  _globalValue : JsValue;
  _currentValue : JsValue;
  _currentValue2 : JsValue;
  Provider : ProviderObject;
  Consumer : ConsumerObject;
  unstable_set : BoundSetContext;
  _currentRenderer : option JsValue;       (* development only *)
  _currentRenderer2 : option JsValue       (* development only *)
}.

(** [context._globalValue = v] on the object itself. *)
Definition assign_globalValue (v : JsValue) (o : Context) : Context :=
  {| context_typeof := context_typeof o;
     _calculateChangedBits := _calculateChangedBits o;
     _globalValue := v;
     _currentValue := _currentValue o;
     _currentValue2 := _currentValue2 o;
     Provider := Provider o;
     Consumer := Consumer o;
     unstable_set := unstable_set o;
     _currentRenderer := _currentRenderer o;
     _currentRenderer2 := _currentRenderer2 o |}.

(** [context._currentValue = context._currentValue2 = v] on the object. *)
Definition assign_currentValues (v : JsValue) (o : Context) : Context :=
  {| context_typeof := context_typeof o;
     _calculateChangedBits := _calculateChangedBits o;
     _globalValue := _globalValue o;
     _currentValue := v;
     _currentValue2 := v;
     Provider := Provider o;
     Consumer := Consumer o;
     unstable_set := unstable_set o;
     _currentRenderer := _currentRenderer o;
     _currentRenderer2 := _currentRenderer2 o |}.

(** ** Closures, roots and the trace *)

(** The two functions [setContext] can pass to a root as [wrappedCallback],
    each with the variables it captured. *)
Inductive Callback :=
| WrappedCallback (numRootsThatNeedUpdate : nat) (context : nat)
                  (newValue : JsValue) (cb : nat)
    (* committedValue => { numRootsThatNeedUpdate -= 1; ... } *)
| BoundContextDidUpdate (context : nat) (newValue : JsValue).
    (* contextDidUpdate.bind(null, context, newValue) *)

#[global] Instance Callback_eq_dec : EqDecision Callback.
Proof. solve_decision. Defined.

(** One call of a callback by a root, with the argument the root passes for
    [committedValue]. *)
Definition Invocation : Type := Callback * JsValue.

(** Modelled from the spec: [./ReactRootList] and the roots themselves are
    not part of the sources at hand.  The registry is a list of roots linked
    by [nextGlobalRoot], changed by mounting and unmounting only; a root
    offers the module one operation, [setContext], which may call the
    callback it is given before it returns or at any later time.  All the
    module can observe of that operation is which callbacks it calls, and
    with what, before it returns.  It sees the context heap as it is at the
    call and its four arguments.  A root that finishes later returns [[]]
    here and its call shows up in a later schedule instead. *)
Record Root := {
  rootId : nat;
  root_setContext :
    gmap nat Context -> nat -> JsValue -> JsValue -> Callback -> list Invocation
}.

(** What crosses the module boundary, in order. *)
Inductive Event :=
| EvWarning (format : string) (args : list JsValue)
    (* a development warning was printed *)
| EvCall (f : nat) (args : list JsValue) (heap : gmap nat Context)
    (* the user's callback [f] was called with [args], and the context heap
       at the time of the call *)
| EvRootSetContext (root : nat) (heap : gmap nat Context) (context : nat)
                   (oldValue newValue : JsValue) (wrappedCallback : Callback)
    (* root.setContext(context, oldValue, newValue, wrappedCallback),
       and the context heap at the time of the call *)
| EvInvoke (w : Callback) (committedValue : JsValue).
    (* a root called [w] *)

(** The state the module reads and writes.  A counter is a JavaScript
    number that only ever holds an integer: it is counted up from 0 by ones
    and down by ones, and such a number is exact as long as it stays within
    2^53 of zero, which no list of roots in memory and no run of calls
    exceeds.  It is an integer here, and may go below zero. *)
Record Store := {
  ReactRootList_first : list Root;  (* ReactRootList.first, linked by nextGlobalRoot *)
  contexts : gmap nat Context;      (* the context objects *)
  counters : gmap nat Z;            (* numRootsThatNeedUpdate of each closure *)
  trace : list Event
}.

Definition with_roots (roots : list Root) (s : Store) : Store :=
  {| ReactRootList_first := roots;
     contexts := contexts s;
     counters := counters s;
     trace := trace s |}.

Definition with_contexts (h : gmap nat Context) (s : Store) : Store :=
  {| ReactRootList_first := ReactRootList_first s;
     contexts := h;
     counters := counters s;
     trace := trace s |}.

Definition with_counters (h : gmap nat Z) (s : Store) : Store :=
  {| ReactRootList_first := ReactRootList_first s;
     contexts := contexts s;
     counters := h;
     trace := trace s |}.

Definition log (ev : Event) (s : Store) : Store :=
  {| ReactRootList_first := ReactRootList_first s;
     contexts := contexts s;
     counters := counters s;
     trace := trace s ++ [ev] |}.

(** Reading a field of the context object at [context]. *)
Definition globalValue (s : Store) (context : nat) : option JsValue :=
  _globalValue <$> contexts s !! context.

Definition currentValue (s : Store) (context : nat) : option JsValue :=
  _currentValue <$> contexts s !! context.

Definition currentValue2 (s : Store) (context : nat) : option JsValue :=
  _currentValue2 <$> contexts s !! context.

(** ** The module *)

(** [function contextDidUpdate(context, newValue)]. *)
Definition contextDidUpdate (context : nat) (newValue : JsValue) (s : Store) : Store :=
  with_contexts (alter (assign_currentValues newValue) context (contexts s)) s.

(** A call [f(...args)] of a user function: the module sees no result.  The
    function runs against the context heap as it is at the call. *)
Definition call (f : nat) (args : list JsValue) (s : Store) : Store :=
  log (EvCall f args (contexts s)) s.

(** Running a callback.  The arrow function ignores its parameter
    [committedValue]; a bound [contextDidUpdate] has both its parameters
    bound already and ignores whatever else it is given. *)
Definition invoke (w : Callback) (committedValue : JsValue) (s : Store) : Store :=
  match w with
  | WrappedCallback numRootsThatNeedUpdate context newValue cb =>
      let s := with_counters (alter (fun n => n - 1)%Z numRootsThatNeedUpdate (counters s)) s in
      if decide (counters s !! numRootsThatNeedUpdate = Some 0%Z) then
        call cb [] (contextDidUpdate context newValue s)
      else s
  | BoundContextDidUpdate context newValue =>
      contextDidUpdate context newValue s
  end.

(** The roots calling callbacks, one call after the other. *)
Fixpoint run (schedule : list Invocation) (s : Store) : Store :=
  match schedule with
  | [] => s
  | (w, committedValue) :: rest =>
      run rest (invoke w committedValue (log (EvInvoke w committedValue) s))
  end.

(** The counting loop,
    [do { numRootsThatNeedUpdate += 1; root = root.nextGlobalRoot; }
     while (root !== null)],
    entered at a root whose [nextGlobalRoot] chain is [nextGlobalRoot]. *)
Fixpoint countRoots (nextGlobalRoot : list Root) (numRootsThatNeedUpdate : Z) : Z :=
  let numRootsThatNeedUpdate := (numRootsThatNeedUpdate + 1)%Z in
  match nextGlobalRoot with
  | [] => numRootsThatNeedUpdate
  | _ :: next => countRoots next numRootsThatNeedUpdate
  end.

(** The scheduling loop,
    [while (root !== null) { root.setContext(...); root = root.nextGlobalRoot; }]. *)
Fixpoint scheduleRoots (root : list Root) (context : nat) (oldValue newValue : JsValue)
    (wrappedCallback : Callback) (s : Store) : Store :=
  match root with
  | [] => s
  | r :: nextGlobalRoot =>
      let s := log (EvRootSetContext (rootId r) (contexts s) context
                      oldValue newValue wrappedCallback) s in
      let s := run (root_setContext r (contexts s) context
                      oldValue newValue wrappedCallback) s in
      scheduleRoots nextGlobalRoot context oldValue newValue wrappedCallback s
  end.

(** [function setContext(context, newValue, userCallback)]. *)
Definition setContext (context : nat) (newValue : JsValue) (userCallback : UserCallback)
    (s : Store) : Store :=
  let oldValue := default JsUndefined (globalValue s context) in
  let s := with_contexts (alter (assign_globalValue newValue) context (contexts s)) s in
  match userCallback with
  | CallbackFn cb =>
      match ReactRootList_first s with
      | _ :: nextGlobalRoot =>
          let numRootsThatNeedUpdate := fresh (dom (counters s)) in
          let s := with_counters
                     (<[numRootsThatNeedUpdate := countRoots nextGlobalRoot 0%Z]> (counters s)) s in
          scheduleRoots (ReactRootList_first s) context oldValue newValue
            (WrappedCallback numRootsThatNeedUpdate context newValue cb) s
      | [] =>
          call cb [] (contextDidUpdate context newValue s)
      end
  | CallbackUndefined | CallbackNull =>
      match ReactRootList_first s with
      | _ :: _ =>
          scheduleRoots (ReactRootList_first s) context oldValue newValue
            (BoundContextDidUpdate context newValue) s
      | [] =>
          contextDidUpdate context newValue s
      end
  end.

(** Modelled from the spec: [shared/warningWithoutStack] is not part of the
    sources at hand.  The spec calls its effect a non-fatal development-mode
    warning: when the condition is false the message is reported and
    execution continues. *)
Definition warningWithoutStack (condition : bool) (format : string) (args : list JsValue)
    (s : Store) : Store :=
  if condition then s else log (EvWarning format args) s.

Definition createContext_message : string :=
  "createContext: Expected the optional second argument to be a function. Instead received: %s".

(** [export function createContext(defaultValue, calculateChangedBits)],
    returning the reference of the new context object.  [DEV] is [__DEV__]. *)
Definition createContext (DEV : bool) (defaultValue : JsValue)
    (calculateChangedBits : JsValue) (s : Store) : nat * Store :=
  let calculateChangedBits' :=
    if decide (calculateChangedBits = JsUndefined) then JsNull else calculateChangedBits in
  let s :=
    if decide (calculateChangedBits = JsUndefined) then s
    else if DEV then
      warningWithoutStack
        (bool_decide (calculateChangedBits = JsNull)
         || bool_decide (typeof calculateChangedBits = "function"))
        createContext_message [calculateChangedBits] s
    else s in
  let context := fresh (dom (contexts s)) in
  let object :=
    {| context_typeof := REACT_CONTEXT_TYPE;
       _calculateChangedBits := calculateChangedBits';
       _globalValue := defaultValue;
       _currentValue := defaultValue;
       _currentValue2 := defaultValue;
       Provider := {| provider_typeof := REACT_PROVIDER_TYPE;
                      provider_context := context |};
       Consumer := if DEV
                   then ConsumerProxy REACT_CONTEXT_TYPE context calculateChangedBits'
                   else ConsumerIsContext context;
       unstable_set := SetContextBoundTo context;
       _currentRenderer := if DEV then Some JsNull else None;
       _currentRenderer2 := if DEV then Some JsNull else None |} in
  (context, with_contexts (<[context := object]> (contexts s)) s).

(** [context.unstable_set(newValue, userCallback)]. *)
Definition unstable_set_call (b : BoundSetContext) (newValue : JsValue)
    (userCallback : UserCallback) (s : Store) : Store :=
  match b with
  | SetContextBoundTo context => setContext context newValue userCallback s
  end.

(** A store with nothing in it but the mounted roots. *)
Definition initialStore (roots : list Root) : Store :=
  {| ReactRootList_first := roots; contexts := ∅; counters := ∅; trace := [] |}.

(** ** Reading the trace *)

Definition is_call (f : nat) (ev : Event) : bool :=
  match ev with
  | EvCall g _ _ => bool_decide (g = f)
  | _ => false
  end.

Definition is_invoke (w : Callback) (ev : Event) : bool :=
  match ev with
  | EvInvoke w' _ => bool_decide (w' = w)
  | _ => false
  end.

(** How often the user function [f] was called. *)
Definition calls (f : nat) (tr : list Event) : nat :=
  length (List.filter (is_call f) tr).

(** How often the roots called [w]. *)
Definition invocations (w : Callback) (tr : list Event) : nat :=
  length (List.filter (is_invoke w) tr).

(** The counter a callback decrements and the user function it calls, if
    it has them. *)
Definition counter_of (w : Callback) : option nat :=
  match w with
  | WrappedCallback numRootsThatNeedUpdate _ _ _ => Some numRootsThatNeedUpdate
  | BoundContextDidUpdate _ _ => None
  end.

Definition user_of (w : Callback) : option nat :=
  match w with
  | WrappedCallback _ _ _ cb => Some cb
  | BoundContextDidUpdate _ _ => None
  end.

(** [w'] belongs to another publish than [w]: it is another closure, with
    its own counter, and completes towards another user function. *)
Definition unrelated (w w' : Callback) : Prop :=
  counter_of w' ≠ counter_of w ∧ user_of w' ≠ user_of w.

(** The calls a schedule may contain while the publish that created [w] is
    watched: calls of [w] itself and calls that belong to other publishes. *)
Definition own_or_unrelated (w w' : Callback) : Prop :=
  w' = w ∨ unrelated w w'.

(** Every root of [roots], handed [w] by the scheduling loop, calls only
    callbacks that satisfy [allowed] before it returns. *)
Definition roots_call_only (allowed : Callback -> Prop) (roots : list Root)
    (context : nat) (oldValue newValue : JsValue) (w : Callback) : Prop :=
  Forall (fun r => forall h,
            Forall (fun i : Invocation => allowed i.1)
                   (root_setContext r h context oldValue newValue w)) roots.

(** The callback [setContext] builds for a given [userCallback], when there
    is at least one root. *)
Definition wrappedCallback_of (s : Store) (context : nat) (newValue : JsValue)
    (userCallback : UserCallback) : Callback :=
  match userCallback with
  | CallbackFn cb =>
      WrappedCallback (fresh (dom (counters s))) context newValue cb
  | CallbackUndefined | CallbackNull =>
      BoundContextDidUpdate context newValue
  end.

(** The next call of [w] brings its counter to zero. *)
Definition completes (w : Callback) (s : Store) : bool :=
  match w with
  | WrappedCallback k _ _ _ => bool_decide (counters s !! k = Some 1%Z)
  | BoundContextDidUpdate _ _ => false
  end.

(** The next call of [w] runs [contextDidUpdate]. *)
Definition commits (w : Callback) (s : Store) : bool :=
  match w with
  | WrappedCallback _ _ _ _ => completes w s
  | BoundContextDidUpdate _ _ => true
  end.

Definition context_of (w : Callback) : nat :=
  match w with
  | WrappedCallback _ context _ _ => context
  | BoundContextDidUpdate context _ => context
  end.

Definition newValue_of (w : Callback) : JsValue :=
  match w with
  | WrappedCallback _ _ newValue _ => newValue
  | BoundContextDidUpdate _ newValue => newValue
  end.

(** [w'] is [w] itself or leaves the counter of [w] alone: it has no
    counter, or another one.  Every closure the module creates gets a counter
    of its own, so the callbacks a root can hold all stand in this relation
    to each other. *)
Definition own_or_other_counter (w w' : Callback) : Prop :=
  w' = w ∨ counter_of w' = None ∨ counter_of w' ≠ counter_of w.

(** [w'] is [w] itself, or leaves the counter of [w] alone and commits to
    another context. *)
Definition own_or_elsewhere (w w' : Callback) : Prop :=
  w' = w ∨ ((counter_of w' = None ∨ counter_of w' ≠ counter_of w)
            ∧ context_of w' ≠ context_of w).

(** [w'] leaves alone the counters of both [wA] and [wB], unless it is one
    of the two. *)
Definition leaves_counters_alone (wA wB w' : Callback) : Prop :=
  own_or_other_counter wA w' ∧ own_or_other_counter wB w'.

(** The callbacks the scheduling loop handed to the roots, read off the
    trace. *)
Definition scheduled_callbacks (tr : list Event) : list Callback :=
  omap (fun ev => match ev with
                  | EvRootSetContext _ _ _ _ _ w => Some w
                  | _ => None
                  end) tr.

(** The calls [root.setContext(...)] in a trace: the root called and the
    callback it was handed. *)
Definition scheduled (tr : list Event) : list (nat * Callback) :=
  omap (fun ev => match ev with
                  | EvRootSetContext root _ _ _ _ w => Some (root, w)
                  | _ => None
                  end) tr.

(** The store in which the scheduling loop of [setContext] starts:
    [_globalValue] is written, and the counter of the closure, if one is
    built, holds the number of roots. *)
Definition scheduling_start (s : Store) (context : nat) (newValue : JsValue)
    (userCallback : UserCallback) : Store :=
  let s1 := with_contexts (alter (assign_globalValue newValue) context (contexts s)) s in
  match userCallback with
  | CallbackFn _ =>
      with_counters (<[fresh (dom (counters s)) :=
                         Z.of_nat (length (ReactRootList_first s))]> (counters s)) s1
  | CallbackUndefined | CallbackNull => s1
  end.

(** How many calls of the callback [setContext] hands out it takes before
    the commit runs, with [n] roots mounted: the closure built around a user
    callback counts down from [n]; the bound [contextDidUpdate] commits on
    its first call. *)
Definition calls_needed (userCallback : UserCallback) (n : nat) : nat :=
  match userCallback with
  | CallbackFn _ => n
  | CallbackUndefined | CallbackNull => 1
  end.

(** Whether the next call of the callback of a publish commits, when [done]
    calls of it have been made and [n] roots were mounted: the closure built
    around a user callback commits on its [n]-th call and on no other, the
    bound [contextDidUpdate] on every call. *)
Definition commit_due (userCallback : UserCallback) (n done : nat) : bool :=
  match userCallback with
  | CallbackFn _ => bool_decide (done + 1 = n)%nat
  | CallbackUndefined | CallbackNull => true
  end.

(** Calls of the closure [w] since its creation, when [i0] calls of it were
    in the trace before. *)
Definition done_since (w : Callback) (i0 : nat) (s : Store) : Z :=
  (Z.of_nat (invocations w (trace s)) - Z.of_nat i0)%Z.

(** The counter of [w], if it has one, holds what is left of [n] after the
    calls of [w] made since its creation. *)
Definition counter_inv (w : Callback) (n : Z) (i0 : nat) (s : Store) : Prop :=
  forall k, counter_of w = Some k -> counters s !! k = Some (n - done_since w i0 s)%Z.

(** The context object of [w] is [o1] until [needed] calls of [w] have been
    made, and [o1] with the value of [w] in both current slots from then on. *)
Definition commit_inv (w : Callback) (needed : Z) (i0 : nat) (o1 : Context)
    (s : Store) : Prop :=
  (0 ≤ done_since w i0 s)%Z
  ∧ counter_inv w needed i0 s
  ∧ contexts s !! context_of w =
    Some (if decide (needed ≤ done_since w i0 s)%Z
          then assign_currentValues (newValue_of w) o1 else o1).

(** The state of the barrier of the closure
    [WrappedCallback k context newValue cb], created with the count [n] when
    the trace held [i0] calls of it and [c0] calls of [cb]: the counter holds
    what is left of [n], and [cb] has been called once if [n] calls have been
    made and not at all before that. *)
Definition barrier_inv (k context : nat) (newValue : JsValue) (cb : nat)
    (n : Z) (i0 c0 : nat) (s : Store) : Prop :=
  let w := WrappedCallback k context newValue cb in
  counters s !! k = Some (n - done_since w i0 s)%Z ∧
  calls cb (trace s) = (c0 + (if decide (n ≤ done_since w i0 s)%Z then 1 else 0))%nat.

(** What the scheduling loop passed to the roots, read off the trace: for
    each [root.setContext(context, oldValue, newValue, wrappedCallback)] the
    root, the [_globalValue] the context had at that moment, and the first
    three arguments. *)
Definition root_call (ev : Event) : option (nat * option JsValue * nat * JsValue * JsValue) :=
  match ev with
  | EvRootSetContext root heap context oldValue newValue _ =>
      Some (root, _globalValue <$> heap !! context, context, oldValue, newValue)
  | _ => None
  end.

Definition root_calls (tr : list Event)
    : list (nat * option JsValue * nat * JsValue * JsValue) :=
  omap root_call tr.

(** The stores the module can be in: it starts with nothing but the mounted
    roots; contexts are created, values are published, roots call the
    callbacks they were given (and, for all the module knows, any other),
    and roots mount and unmount. *)
Inductive reachable : Store -> Prop :=
| reach_initial roots :
    reachable (initialStore roots)
| reach_createContext DEV defaultValue calculateChangedBits s :
    reachable s ->
    reachable (createContext DEV defaultValue calculateChangedBits s).2
| reach_setContext context newValue userCallback s :
    reachable s ->
    reachable (setContext context newValue userCallback s)
| reach_callback schedule s :
    reachable s ->
    reachable (run schedule s)
| reach_mount roots s :
    reachable s ->
    reachable (with_roots roots s).

(** The two current slots of every context object hold the same value. *)
Definition current_slots_agree (s : Store) : Prop :=
  forall context o, contexts s !! context = Some o -> _currentValue o = _currentValue2 o.

(** A call of a user function that passes no argument (or an event that is
    no such call). *)
Definition call_without_arguments (ev : Event) : Prop :=
  match ev with
  | EvCall _ args _ => args = []
  | _ => True
  end.

(** The calls of user functions in a trace: the function and the arguments
    it was passed. *)
Definition user_calls (tr : list Event) : list (nat * list JsValue) :=
  omap (fun ev => match ev with
                  | EvCall f args _ => Some (f, args)
                  | _ => None
                  end) tr.

(** What [s'] logged beyond [s]. *)
Definition new_events (s s' : Store) : list Event :=
  drop (length (trace s)) (trace s').

(** From [s] to [s'] the trace was only added to, and no call of a user
    function that was added passes an argument. *)
Definition calls_pass_nothing (s s' : Store) : Prop :=
  trace s `prefix_of` trace s' ∧ Forall call_without_arguments (new_events s s').

(** ** The Consumer object and its accessors *)

(** [context.Provider = p], [context._currentValue = v] and
    [context._currentValue2 = v] on the object itself. *)
Definition assign_Provider (p : ProviderObject) (o : Context) : Context :=
  {| context_typeof := context_typeof o;
     _calculateChangedBits := _calculateChangedBits o;
     _globalValue := _globalValue o;
     _currentValue := _currentValue o;
     _currentValue2 := _currentValue2 o;
     Provider := p;
     Consumer := Consumer o;
     unstable_set := unstable_set o;
     _currentRenderer := _currentRenderer o;
     _currentRenderer2 := _currentRenderer2 o |}.

Definition assign_currentValue (v : JsValue) (o : Context) : Context :=
  {| context_typeof := context_typeof o;
     _calculateChangedBits := _calculateChangedBits o;
     _globalValue := _globalValue o;
     _currentValue := v;
     _currentValue2 := _currentValue2 o;
     Provider := Provider o;
     Consumer := Consumer o;
     unstable_set := unstable_set o;
     _currentRenderer := _currentRenderer o;
     _currentRenderer2 := _currentRenderer2 o |}.

Definition assign_currentValue2 (v : JsValue) (o : Context) : Context :=
  {| context_typeof := context_typeof o;
     _calculateChangedBits := _calculateChangedBits o;
     _globalValue := _globalValue o;
     _currentValue := _currentValue o;
     _currentValue2 := v;
     Provider := Provider o;
     Consumer := Consumer o;
     unstable_set := unstable_set o;
     _currentRenderer := _currentRenderer o;
     _currentRenderer2 := _currentRenderer2 o |}.

(** The two variables [createContext] declares for the accessors of the
    Consumer object it builds; every call of [createContext] has its own
    pair. *)
Record ConsumerClosure := {
  hasWarnedAboutUsingNestedContextConsumers : bool;
  hasWarnedAboutUsingConsumerProvider : bool
}.

(** The store together with those variables, by context. *)
Record ClosureStore := {
  module_store : Store;
  consumer_closures : gmap nat ConsumerClosure
}.

Definition with_module_store (s : Store) (x : ClosureStore) : ClosureStore :=
  {| module_store := s; consumer_closures := consumer_closures x |}.

(** Modelled from the spec: [shared/warning] is not part of the sources at
    hand.  Like [warningWithoutStack] it is a development-mode warning that
    is reported when its condition is false and lets execution continue. *)
Definition warning (condition : bool) (format : string) (args : list JsValue)
    (s : Store) : Store :=
  if condition then s else log (EvWarning format args) s.

Definition Consumer_Provider_message : string :=
  "Rendering <Context.Consumer.Provider> is not supported and will be removed in a future major release. Did you mean to render <Context.Provider> instead?".

Definition Consumer_Consumer_message : string :=
  "Rendering <Context.Consumer.Consumer> is not supported and will be removed in a future major release. Did you mean to render <Context.Consumer> instead?".

(** [createContext] with the two variables it declares: both start out
    [false]. *)
Definition createContext_closure (DEV : bool) (defaultValue : JsValue)
    (calculateChangedBits : JsValue) (x : ClosureStore) : nat * ClosureStore :=
  let r := createContext DEV defaultValue calculateChangedBits (module_store x) in
  (r.1,
   {| module_store := r.2;
      consumer_closures :=
        <[r.1 := {| hasWarnedAboutUsingNestedContextConsumers := false;
                    hasWarnedAboutUsingConsumerProvider := false |}]>
          (consumer_closures x) |}).

(** The context a Consumer object stands for. *)
Definition consumer_context_of (consumer : ConsumerObject) : nat :=
  match consumer with
  | ConsumerIsContext context => context
  | ConsumerProxy _ context _ => context
  end.

(** [consumer.Provider]: a plain property when the Consumer is the context
    itself; on the development object the getter, which warns the first
    time and returns [context.Provider]. *)
Definition Consumer_get_Provider (consumer : ConsumerObject) (x : ClosureStore)
    : option ProviderObject * ClosureStore :=
  match consumer with
  | ConsumerIsContext context =>
      (Provider <$> contexts (module_store x) !! context, x)
  | ConsumerProxy _ context _ =>
      let x :=
        match consumer_closures x !! context with
        | Some cl =>
            if hasWarnedAboutUsingConsumerProvider cl then x
            else
              {| module_store :=
                   warning false Consumer_Provider_message [] (module_store x);
                 consumer_closures :=
                   <[context :=
                       {| hasWarnedAboutUsingNestedContextConsumers :=
                            hasWarnedAboutUsingNestedContextConsumers cl;
                          hasWarnedAboutUsingConsumerProvider := true |}]>
                     (consumer_closures x) |}
        | None => x
        end in
      (Provider <$> contexts (module_store x) !! context, x)
  end.

(** [consumer.Provider = _Provider]: on either object it sets
    [context.Provider]. *)
Definition Consumer_set_Provider (consumer : ConsumerObject) (_Provider : ProviderObject)
    (x : ClosureStore) : ClosureStore :=
  with_module_store
    (with_contexts (alter (assign_Provider _Provider) (consumer_context_of consumer)
                      (contexts (module_store x))) (module_store x)) x.

(** [consumer._currentValue] and [consumer._currentValue = v]. *)
Definition Consumer_get_currentValue (consumer : ConsumerObject) (x : ClosureStore)
    : option JsValue :=
  currentValue (module_store x) (consumer_context_of consumer).

Definition Consumer_set_currentValue (consumer : ConsumerObject) (v : JsValue)
    (x : ClosureStore) : ClosureStore :=
  with_module_store
    (with_contexts (alter (assign_currentValue v) (consumer_context_of consumer)
                      (contexts (module_store x))) (module_store x)) x.

(** [consumer._currentValue2] and [consumer._currentValue2 = v]. *)
Definition Consumer_get_currentValue2 (consumer : ConsumerObject) (x : ClosureStore)
    : option JsValue :=
  currentValue2 (module_store x) (consumer_context_of consumer).

Definition Consumer_set_currentValue2 (consumer : ConsumerObject) (v : JsValue)
    (x : ClosureStore) : ClosureStore :=
  with_module_store
    (with_contexts (alter (assign_currentValue2 v) (consumer_context_of consumer)
                      (contexts (module_store x))) (module_store x)) x.

(** [consumer.Consumer]: a plain property when the Consumer is the context
    itself; on the development object the getter, which warns the first
    time and returns [context.Consumer]. *)
Definition Consumer_get_Consumer (consumer : ConsumerObject) (x : ClosureStore)
    : option ConsumerObject * ClosureStore :=
  match consumer with
  | ConsumerIsContext context =>
      (Consumer <$> contexts (module_store x) !! context, x)
  | ConsumerProxy _ context _ =>
      let x :=
        match consumer_closures x !! context with
        | Some cl =>
            if hasWarnedAboutUsingNestedContextConsumers cl then x
            else
              {| module_store :=
                   warning false Consumer_Consumer_message [] (module_store x);
                 consumer_closures :=
                   <[context :=
                       {| hasWarnedAboutUsingNestedContextConsumers := true;
                          hasWarnedAboutUsingConsumerProvider :=
                            hasWarnedAboutUsingConsumerProvider cl |}]>
                     (consumer_closures x) |}
        | None => x
        end in
      (Consumer <$> contexts (module_store x) !! context, x)
  end.

(** One use of a Consumer object by a renderer, and a series of them. *)
Inductive ConsumerAccess :=
| ReadProvider
| WriteProvider (_Provider : ProviderObject)
| ReadCurrentValue
| WriteCurrentValue (v : JsValue)
| ReadCurrentValue2
| WriteCurrentValue2 (v : JsValue)
| ReadConsumer.

Definition access (consumer : ConsumerObject) (a : ConsumerAccess) (x : ClosureStore)
    : ClosureStore :=
  match a with
  | ReadProvider => (Consumer_get_Provider consumer x).2
  | WriteProvider p => Consumer_set_Provider consumer p x
  | ReadCurrentValue => x
  | WriteCurrentValue v => Consumer_set_currentValue consumer v x
  | ReadCurrentValue2 => x
  | WriteCurrentValue2 v => Consumer_set_currentValue2 consumer v x
  | ReadConsumer => (Consumer_get_Consumer consumer x).2
  end.

Fixpoint accesses (consumer : ConsumerObject) (l : list ConsumerAccess) (x : ClosureStore)
    : ClosureStore :=
  match l with
  | [] => x
  | a :: rest => accesses consumer rest (access consumer a x)
  end.

Definition is_ReadProvider (a : ConsumerAccess) : bool :=
  match a with ReadProvider => true | _ => false end.

Definition is_ReadConsumer (a : ConsumerAccess) : bool :=
  match a with ReadConsumer => true | _ => false end.

(** How often the warning with the message [format] was reported. *)
Definition warnings (format : string) (tr : list Event) : nat :=
  length (List.filter (fun ev => match ev with
                                 | EvWarning f _ => bool_decide (f = format)
                                 | _ => false
                                 end) tr).

(** ** What a publish leaves alone *)

(** The fields of a context object that are no value slot. *)
Definition identity_of (o : Context) :=
  (context_typeof o, _calculateChangedBits o, Provider o, Consumer o,
   unstable_set o, _currentRenderer o, _currentRenderer2 o).

(** [s'] has the context objects of [s], each with the fields it had, the
    value slots apart. *)
Definition same_identities (s s' : Store) : Prop :=
  forall c, identity_of <$> contexts s' !! c = identity_of <$> contexts s !! c.

(** The object at [context] is as [createContext] built it, the value slots
    apart: it carries the context symbol, its Provider, its Consumer and its
    [unstable_set] point back at it, the development Consumer holds the same
    change detector, and the change detector is not [undefined]. *)
Definition well_formed_context (context : nat) (o : Context) : Prop :=
  context_typeof o = REACT_CONTEXT_TYPE
  ∧ Provider o = {| provider_typeof := REACT_PROVIDER_TYPE; provider_context := context |}
  ∧ unstable_set o = SetContextBoundTo context
  ∧ (Consumer o = ConsumerIsContext context
     ∨ Consumer o = ConsumerProxy REACT_CONTEXT_TYPE context (_calculateChangedBits o))
  ∧ _calculateChangedBits o ≠ JsUndefined.

(** The second arguments [createContext] takes without a warning. *)
Definition accepted_calculateChangedBits (v : JsValue) : bool :=
  bool_decide (v = JsUndefined) || bool_decide (v = JsNull)
  || bool_decide (typeof v = "function").

(** ** Sample roots and stores *)

(** A root that finishes later: it calls nothing before it returns. *)
Definition deferring_root (id : nat) : Root :=
  {| rootId := id; root_setContext := fun _ _ _ _ _ => [] |}.

(** A root that finishes at once: it calls the callback before it returns. *)
Definition synchronous_root (id : nat) : Root :=
  {| rootId := id; root_setContext := fun _ _ _ _ w => [(w, JsUndefined)] |}.

(** A faulty root that calls the callback twice before it returns. *)
Definition repeating_root (id : nat) : Root :=
  {| rootId := id;
     root_setContext := fun _ _ _ _ w => [(w, JsUndefined); (w, JsUndefined)] |}.

(** [createContext(0)] in development mode, with [roots] mounted. *)
Definition sample_store (roots : list Root) : Store :=
  (createContext true (JsNumber 0) JsUndefined (initialStore roots)).2.

(** [createContext(0)] in development mode, with the variables of its
    Consumer object, and that object. *)
Definition sample_closure_store : ClosureStore :=
  (createContext_closure true (JsNumber 0) JsUndefined
     {| module_store := initialStore []; consumer_closures := ∅ |}).2.

Definition sample_Consumer : ConsumerObject :=
  ConsumerProxy REACT_CONTEXT_TYPE 0 JsNull.

(** * Basic facts *)

Lemma countRoots_length next n :
  countRoots next n = (n + Z.of_nat (S (length next)))%Z.
Proof.
  revert n. induction next as [|r next IH]; intros n; cbn [countRoots length].
  - lia.
  - rewrite IH. lia.
Qed.

Lemma calls_snoc f tr ev :
  calls f (tr ++ [ev]) = (calls f tr + (if is_call f ev then 1 else 0))%nat.
Proof.
  unfold calls. rewrite List.filter_app, length_app. cbn.
  destruct (is_call f ev); reflexivity.
Qed.

Lemma invocations_snoc w tr ev :
  invocations w (tr ++ [ev]) = (invocations w tr + (if is_invoke w ev then 1 else 0))%nat.
Proof.
  unfold invocations. rewrite List.filter_app, length_app. cbn.
  destruct (is_invoke w ev); reflexivity.
Qed.

Lemma fresh_counter_unused (s : Store) :
  counters s !! fresh (dom (counters s)) = None.
Proof. apply not_elem_of_dom, is_fresh. Qed.

(** ** What one call of a callback does *)

Lemma decrement_zero (h : gmap nat Z) k :
  alter (fun n => n - 1)%Z k h !! k = Some 0%Z <-> h !! k = Some 1%Z.
Proof.
  rewrite lookup_alter_eq. destruct (h !! k) as [m|]; cbn.
  - split; intros [= H]; f_equal; lia.
  - split; discriminate.
Qed.

Lemma roots_invoke w a s :
  ReactRootList_first (invoke w a s) = ReactRootList_first s.
Proof.
  destruct w; cbn; [case_decide|]; reflexivity.
Qed.

Lemma counters_invoke w a s :
  counters (invoke w a s) =
  match counter_of w with
  | Some k => alter (fun n => n - 1)%Z k (counters s)
  | None => counters s
  end.
Proof.
  destruct w; cbn; [case_decide|]; reflexivity.
Qed.

Lemma trace_invoke w a s :
  trace (invoke w a s) =
  trace s ++ match user_of w with
             | Some cb => if completes w s
                          then [EvCall cb [] (contexts (invoke w a s))] else []
             | None => []
             end.
Proof.
  destruct w as [k c v f | c v]; cbn [invoke user_of completes].
  - cbn [with_counters counters].
    destruct (decide (alter (fun n => n - 1)%Z k (counters s) !! k = Some 0%Z))
      as [Hz | Hz]; rewrite decrement_zero in Hz.
    + rewrite bool_decide_eq_true_2 by assumption. reflexivity.
    + rewrite bool_decide_eq_false_2 by assumption. cbn. symmetry; apply app_nil_r.
  - cbn. symmetry; apply app_nil_r.
Qed.

Lemma contexts_invoke w a s :
  contexts (invoke w a s) =
  if commits w s
  then alter (assign_currentValues (newValue_of w)) (context_of w) (contexts s)
  else contexts s.
Proof.
  destruct w as [k c v f | c v]; cbn [invoke commits completes newValue_of context_of].
  - cbn [with_counters counters].
    destruct (decide (alter (fun n => n - 1)%Z k (counters s) !! k = Some 0%Z))
      as [Hz | Hz]; rewrite decrement_zero in Hz.
    + rewrite bool_decide_eq_true_2 by assumption. reflexivity.
    + rewrite bool_decide_eq_false_2 by assumption. reflexivity.
  - reflexivity.
Qed.

(** ** Induction over schedules and over the scheduling loop *)

Section Preservation.
Variable allowed : Callback -> Prop.
Variable J : Store -> Prop.

Hypothesis J_invoke : forall w a s,
  allowed w -> J s -> J (invoke w a (log (EvInvoke w a) s)).
Hypothesis J_schedule : forall r c o v w s,
  J s -> J (log (EvRootSetContext r (contexts s) c o v w) s).

Lemma run_preserves schedule s :
  Forall (fun i : Invocation => allowed i.1) schedule -> J s -> J (run schedule s).
Proof.
  intros Hall. revert s.
  induction Hall as [|[w a] rest Hw _ IH]; intros s HJ; cbn [run].
  - exact HJ.
  - apply IH, J_invoke; [exact Hw | exact HJ].
Qed.

Lemma scheduleRoots_preserves roots c o v w s :
  roots_call_only allowed roots c o v w -> J s -> J (scheduleRoots roots c o v w s).
Proof.
  intros Hall. revert s.
  induction Hall as [|r rest Hr _ IH]; intros s HJ; cbn [scheduleRoots].
  - exact HJ.
  - apply IH, run_preserves; [apply Hr | apply J_schedule, HJ].
Qed.
End Preservation.


(** ** One barrier, watched from its creation *)

Section Barrier.
Variables (k context : nat) (newValue : JsValue) (cb : nat).
Variable n : Z.          (* the count the closure was created with *)
Variables i0 c0 : nat.   (* calls of the closure and of [cb] logged before *)

Let w := WrappedCallback k context newValue cb.
Local Abbreviation inv := (barrier_inv k context newValue cb n i0 c0).

Lemma barrier_inv_invoke w' a s :
  own_or_unrelated w w' -> inv s ->
  inv (invoke w' a (log (EvInvoke w' a) s)).
Proof.
  unfold barrier_inv, done_since. fold w.
  intros Hw' [Hcnt Hcalls].
  rewrite counters_invoke, trace_invoke.
  destruct Hw' as [-> | [Hk Hf]].
  - (* the closure itself: one more call, the counter goes down by one *)
    cbn [w counter_of user_of completes log counters trace].
    fold w. rewrite lookup_alter_eq, Hcnt. cbn [fmap option_fmap option_map].
    set (d := Z.of_nat (invocations w (trace s))) in *.
    assert (Hd : Z.of_nat (invocations w (trace s ++ [EvInvoke w a])) = (d + 1)%Z).
    { rewrite invocations_snoc. cbn [is_invoke].
      rewrite bool_decide_eq_true_2 by reflexivity. subst d. lia. }
    destruct (bool_decide_reflect (Some (n - (d - Z.of_nat i0))%Z = Some 1%Z)) as [H1 | H1].
    + injection H1 as H1.
      rewrite invocations_snoc, calls_snoc. cbn [is_invoke is_call].
      rewrite bool_decide_eq_true_2 by reflexivity.
      rewrite Nat.add_0_r, Hd, calls_snoc, Hcalls. cbn [is_call].
      split; [f_equal; lia |].
      destruct (decide (n ≤ d - Z.of_nat i0)%Z); [lia |].
      destruct (decide (n ≤ d + 1 - Z.of_nat i0)%Z); lia.
    + rewrite app_nil_r, Hd, calls_snoc, Hcalls. cbn [is_call].
      split; [f_equal; lia |].
      destruct (decide (n ≤ d - Z.of_nat i0)%Z);
        destruct (decide (n ≤ d + 1 - Z.of_nat i0)%Z); try lia.
      exfalso. apply H1. f_equal. lia.
  - (* a callback of another publish: neither count moves *)
    assert (Hne : w' ≠ w) by (intros ->; apply Hk; reflexivity).
    assert (Hi : invocations w (trace s ++ [EvInvoke w' a]) = invocations w (trace s)).
    { rewrite invocations_snoc. cbn [is_invoke].
      rewrite bool_decide_eq_false_2 by assumption. lia. }
    assert (Hc : calls cb (trace s ++ [EvInvoke w' a]) = calls cb (trace s)).
    { rewrite calls_snoc. cbn [is_call]. lia. }
    cbn [log counters trace].
    destruct w' as [k' c' v' f' | c' v']; cbn [counter_of user_of].
    + assert (k' ≠ k) by (intros ->; apply Hk; reflexivity).
      assert (f' ≠ cb) by (intros ->; apply Hf; reflexivity).
      rewrite lookup_alter_ne by assumption.
      destruct (completes _ _).
      * rewrite invocations_snoc, calls_snoc. cbn [is_invoke is_call].
        rewrite bool_decide_eq_false_2 by assumption.
        rewrite !Nat.add_0_r, Hi, Hc. split; assumption.
      * rewrite app_nil_r, Hi, Hc. split; assumption.
    + rewrite app_nil_r, Hi, Hc. split; assumption.
Qed.

Lemma barrier_inv_schedule r h c o v w' s :
  inv s -> inv (log (EvRootSetContext r h c o v w') s).
Proof.
  unfold barrier_inv, done_since. fold w. cbn [log counters trace].
  rewrite calls_snoc, invocations_snoc. cbn [is_call is_invoke].
  rewrite !Nat.add_0_r. trivial.
Qed.

Lemma barrier_inv_run schedule s :
  Forall (fun i : Invocation => own_or_unrelated w i.1) schedule ->
  inv s -> inv (run schedule s).
Proof.
  apply run_preserves.
  intros; apply barrier_inv_invoke; assumption.
Qed.

Lemma barrier_inv_scheduleRoots roots c o v w' s :
  roots_call_only (own_or_unrelated w) roots c o v w' ->
  inv s -> inv (scheduleRoots roots c o v w' s).
Proof.
  apply scheduleRoots_preserves.
  - intros; apply barrier_inv_invoke; assumption.
  - intros; apply barrier_inv_schedule; assumption.
Qed.
End Barrier.

(** ** The trace only grows *)

Lemma trace_invoke_grows w a s : trace s `prefix_of` trace (invoke w a s).
Proof. rewrite trace_invoke. apply prefix_app_r. reflexivity. Qed.

Lemma trace_run_grows schedule s : trace s `prefix_of` trace (run schedule s).
Proof.
  apply (run_preserves (fun _ => True) (fun s' => trace s `prefix_of` trace s')).
  - intros w a s' _ H. etrans; [exact H|]. etrans; [|apply trace_invoke_grows].
    cbn. apply prefix_app_r. reflexivity.
  - apply Forall_forall. trivial.
  - reflexivity.
Qed.

Lemma trace_scheduleRoots_grows roots c o v w s :
  trace s `prefix_of` trace (scheduleRoots roots c o v w s).
Proof.
  revert s. induction roots as [|r rest IH]; intros s; cbn [scheduleRoots].
  - reflexivity.
  - etrans; [|apply IH]. etrans; [|apply trace_run_grows].
    cbn. apply prefix_app_r. reflexivity.
Qed.

Lemma trace_setContext_grows c v u s : trace s `prefix_of` trace (setContext c v u s).
Proof.
  unfold setContext. cbn [with_contexts ReactRootList_first].
  destruct u, (ReactRootList_first s);
    first [ reflexivity
          | apply trace_scheduleRoots_grows
          | cbn; apply prefix_app_r; reflexivity
          | idtac ].
  all: etrans; [|apply trace_scheduleRoots_grows]; reflexivity.
Qed.

Lemma invocations_app w tr1 tr2 :
  invocations w (tr1 ++ tr2) = (invocations w tr1 + invocations w tr2)%nat.
Proof. unfold invocations. rewrite List.filter_app, length_app. reflexivity. Qed.

Lemma invocations_mono w tr1 tr2 :
  tr1 `prefix_of` tr2 -> (invocations w tr1 ≤ invocations w tr2)%nat.
Proof. intros [tr ->]. rewrite invocations_app. lia. Qed.

(** ** A publish with a callback and at least one root sets up a barrier *)

Lemma setContext_barrier_inv s context newValue cb root nextGlobalRoot :
  ReactRootList_first s = root :: nextGlobalRoot ->
  let k := fresh (dom (counters s)) in
  let w := WrappedCallback k context newValue cb in
  roots_call_only (own_or_unrelated w) (root :: nextGlobalRoot) context
    (default JsUndefined (globalValue s context)) newValue w ->
  barrier_inv k context newValue cb
    (Z.of_nat (length (root :: nextGlobalRoot)))
    (invocations w (trace s)) (calls cb (trace s))
    (setContext context newValue (CallbackFn cb) s).
Proof.
  intros Hroots k w Hcalls.
  unfold setContext. cbn [with_contexts ReactRootList_first].
  rewrite Hroots. cbn [with_counters with_contexts ReactRootList_first].
  rewrite Hroots.
  cbn [with_counters with_contexts counters].
  apply barrier_inv_scheduleRoots; [exact Hcalls |].
  unfold barrier_inv, done_since. cbn [with_counters with_contexts counters trace].
  fold k. rewrite lookup_insert_eq, countRoots_length.
  fold w. rewrite Z.sub_diag.
  split; [f_equal; lia |].
  destruct (decide _) as [H | H]; [cbn [length] in H; lia | lia].
Qed.

Lemma publish_barrier_inv s context newValue cb root nextGlobalRoot later :
  ReactRootList_first s = root :: nextGlobalRoot ->
  let k := fresh (dom (counters s)) in
  let w := WrappedCallback k context newValue cb in
  roots_call_only (own_or_unrelated w) (root :: nextGlobalRoot) context
    (default JsUndefined (globalValue s context)) newValue w ->
  Forall (fun i : Invocation => own_or_unrelated w i.1) later ->
  barrier_inv k context newValue cb
    (Z.of_nat (length (root :: nextGlobalRoot)))
    (invocations w (trace s)) (calls cb (trace s))
    (run later (setContext context newValue (CallbackFn cb) s)).
Proof.
  intros Hroots k w Hsync Hlater.
  apply barrier_inv_run; [exact Hlater |].
  apply setContext_barrier_inv; assumption.
Qed.

Lemma publish_done_since s context newValue userCallback later w :
  let s' := run later (setContext context newValue userCallback s) in
  done_since w (invocations w (trace s)) s' =
  Z.of_nat (invocations w (trace s') - invocations w (trace s)).
Proof.
  intros s'. unfold done_since.
  assert (invocations w (trace s) ≤ invocations w (trace s'))%nat; [|lia].
  apply invocations_mono. etrans; [apply trace_setContext_grows|].
  apply trace_run_grows.
Qed.

(** ** Facts about the context heap *)

Lemma alter_twice {A} (f : A -> A) (h : gmap nat A) c :
  (forall x, f (f x) = f x) -> alter f c (alter f c h) = alter f c h.
Proof.
  intros Hf. apply map_eq. intros j.
  destruct (decide (c = j)) as [-> | Hne].
  - rewrite !lookup_alter_eq. destruct (h !! j); cbn; [rewrite Hf|]; reflexivity.
  - rewrite !lookup_alter_ne by assumption. reflexivity.
Qed.

Lemma contextDidUpdate_twice c v s :
  contextDidUpdate c v (contextDidUpdate c v s) = contextDidUpdate c v s.
Proof.
  unfold contextDidUpdate, with_contexts. cbn. f_equal.
  apply alter_twice. reflexivity.
Qed.

Lemma globalValue_invoke w a s c :
  globalValue (invoke w a s) c = globalValue s c.
Proof.
  unfold globalValue. rewrite contexts_invoke.
  destruct (commits w s); [|reflexivity].
  destruct (decide (context_of w = c)) as [<- | Hne].
  - rewrite lookup_alter_eq. destruct (contexts s !! context_of w); reflexivity.
  - rewrite lookup_alter_ne by assumption. reflexivity.
Qed.

Lemma root_calls_snoc tr ev :
  root_calls (tr ++ [ev]) = root_calls tr ++ option_list (root_call ev).
Proof.
  unfold root_calls. rewrite omap_app. cbn. destruct (root_call ev); reflexivity.
Qed.

Lemma root_calls_invoke w a s :
  root_calls (trace (invoke w a s)) = root_calls (trace s).
Proof.
  rewrite trace_invoke.
  destruct (user_of w); [destruct (completes w s)|];
    rewrite ?app_nil_r, ?root_calls_snoc; cbn; rewrite ?app_nil_r; reflexivity.
Qed.

Lemma run_keeps_intent schedule s c :
  globalValue (run schedule s) c = globalValue s c
  ∧ root_calls (trace (run schedule s)) = root_calls (trace s).
Proof.
  apply (run_preserves (fun _ => True)
           (fun s' => globalValue s' c = globalValue s c
                      ∧ root_calls (trace s') = root_calls (trace s))).
  - intros w a s' _ [Hg Hr].
    rewrite globalValue_invoke, root_calls_invoke. cbn [log trace].
    rewrite root_calls_snoc. cbn. rewrite app_nil_r. split; assumption.
  - apply Forall_forall. trivial.
  - split; reflexivity.
Qed.

Lemma scheduleRoots_intent roots c o v w s :
  globalValue (scheduleRoots roots c o v w s) c = globalValue s c
  ∧ root_calls (trace (scheduleRoots roots c o v w s)) =
    root_calls (trace s) ++ map (fun r => (rootId r, globalValue s c, c, o, v)) roots.
Proof.
  revert s. induction roots as [|r rest IH]; intros s; cbn [scheduleRoots map].
  - rewrite app_nil_r. split; reflexivity.
  - match goal with |- context [scheduleRoots rest c o v w (run ?sch ?st)] =>
      destruct (IH (run sch st)) as [Hg Hr];
      destruct (run_keeps_intent sch st c) as [Hg' Hr']
    end.
    rewrite Hg, Hr, Hg', Hr'. cbn [log trace].
    rewrite root_calls_snoc. cbn. rewrite <- app_assoc. split; reflexivity.
Qed.

(** ** The two paths of [setContext] *)

Lemma setContext_with_roots s context newValue userCallback :
  ReactRootList_first s <> [] ->
  setContext context newValue userCallback s =
  scheduleRoots (ReactRootList_first s) context
    (default JsUndefined (globalValue s context)) newValue
    (wrappedCallback_of s context newValue userCallback)
    (scheduling_start s context newValue userCallback).
Proof.
  intros Hroots. unfold setContext, scheduling_start, wrappedCallback_of.
  cbn [with_contexts with_counters ReactRootList_first counters].
  destruct (ReactRootList_first s) as [|r rest]; [congruence|].
  destruct userCallback; try reflexivity.
  rewrite countRoots_length. reflexivity.
Qed.

Lemma setContext_without_roots s context newValue userCallback :
  ReactRootList_first s = [] ->
  setContext context newValue userCallback s =
  let s1 := contextDidUpdate context newValue
              (with_contexts (alter (assign_globalValue newValue) context (contexts s)) s) in
  match userCallback with
  | CallbackFn cb => call cb [] s1
  | CallbackUndefined | CallbackNull => s1
  end.
Proof.
  intros Hroots. unfold setContext.
  cbn [with_contexts ReactRootList_first]. rewrite Hroots.
  destruct userCallback; reflexivity.
Qed.

Lemma setContext_intent s context newValue userCallback o :
  contexts s !! context = Some o ->
  let s' := setContext context newValue userCallback s in
  globalValue s' context = Some newValue
  ∧ root_calls (trace s') =
    root_calls (trace s) ++
    map (fun r => (rootId r, Some newValue, context, _globalValue o, newValue))
        (ReactRootList_first s).
Proof.
  intros Ho s'. subst s'.
  destruct (decide (ReactRootList_first s = [])) as [Hroots | Hroots].
  - rewrite setContext_without_roots by assumption. rewrite Hroots.
    cbn [map]. rewrite app_nil_r. unfold globalValue.
    destruct userCallback;
      cbn [call contextDidUpdate with_contexts log contexts trace];
      rewrite ?root_calls_snoc, ?app_nil_r, !lookup_alter_eq, Ho;
      split; reflexivity.
  - rewrite setContext_with_roots by assumption.
    assert (Hold : default JsUndefined (globalValue s context) = _globalValue o)
      by (unfold globalValue; rewrite Ho; reflexivity).
    set (s1 := scheduling_start s context newValue userCallback).
    assert (Hg1 : globalValue s1 context = Some newValue).
    { unfold globalValue, s1, scheduling_start.
      destruct userCallback; cbn [with_counters with_contexts contexts];
        rewrite lookup_alter_eq, Ho; reflexivity. }
    assert (Ht1 : trace s1 = trace s)
      by (unfold s1, scheduling_start; destruct userCallback; reflexivity).
    destruct (scheduleRoots_intent (ReactRootList_first s) context
                (default JsUndefined (globalValue s context)) newValue
                (wrappedCallback_of s context newValue userCallback) s1) as [Hg Hr].
    rewrite Hg, Hr, Hg1, Ht1, Hold. split; reflexivity.
Qed.

(** ** The current slots move together *)

Lemma agree_alter (f : Context -> Context) c (h : gmap nat Context) :
  (forall o, _currentValue o = _currentValue2 o ->
             _currentValue (f o) = _currentValue2 (f o)) ->
  (forall c' o, h !! c' = Some o -> _currentValue o = _currentValue2 o) ->
  forall c' o, alter f c h !! c' = Some o -> _currentValue o = _currentValue2 o.
Proof.
  intros Hf Hh c' o'.
  destruct (decide (c = c')) as [-> | Hne].
  - rewrite lookup_alter_eq. destruct (h !! c') as [o|] eqn:Ho; cbn; [|discriminate].
    intros [= <-]. apply Hf, (Hh c'), Ho.
  - rewrite lookup_alter_ne by assumption. apply Hh.
Qed.

Lemma agree_invoke w a s :
  current_slots_agree s -> current_slots_agree (invoke w a s).
Proof.
  unfold current_slots_agree. intros Hs. rewrite contexts_invoke.
  destruct (commits w s); [|exact Hs].
  apply agree_alter; [reflexivity | exact Hs].
Qed.

Lemma agree_run schedule s :
  current_slots_agree s -> current_slots_agree (run schedule s).
Proof.
  apply (run_preserves (fun _ => True)).
  - intros w a s' _ H. apply agree_invoke. exact H.
  - apply Forall_forall. trivial.
Qed.

Lemma agree_scheduleRoots roots c o v w s :
  current_slots_agree s -> current_slots_agree (scheduleRoots roots c o v w s).
Proof.
  apply (scheduleRoots_preserves (fun _ => True)).
  - intros w' a s' _ H. apply agree_invoke. exact H.
  - intros; assumption.
  - apply Forall_forall. intros r _ h. apply Forall_forall. trivial.
Qed.

Lemma agree_setContext c v u s :
  current_slots_agree s -> current_slots_agree (setContext c v u s).
Proof.
  intros Hs.
  assert (H1 : current_slots_agree
                 (with_contexts (alter (assign_globalValue v) c (contexts s)) s)).
  { unfold current_slots_agree. cbn [with_contexts contexts].
    apply agree_alter; [intros o H; exact H | exact Hs]. }
  destruct (decide (ReactRootList_first s = [])) as [Hroots | Hroots].
  - rewrite setContext_without_roots by assumption.
    assert (H2 : current_slots_agree
                   (contextDidUpdate c v
                      (with_contexts (alter (assign_globalValue v) c (contexts s)) s))).
    { unfold current_slots_agree, contextDidUpdate. cbn [with_contexts contexts].
      apply agree_alter; [reflexivity | exact H1]. }
    destruct u; exact H2.
  - rewrite setContext_with_roots by assumption.
    apply agree_scheduleRoots.
    unfold scheduling_start. destruct u; exact H1.
Qed.

Lemma agree_createContext DEV d ccb s :
  current_slots_agree s -> current_slots_agree (createContext DEV d ccb s).2.
Proof.
  unfold current_slots_agree, createContext. cbn [snd with_contexts contexts].
  intros Hs c o.
  match goal with |- <[?i := _]> ?h !! c = _ -> _ =>
    destruct (decide (i = c)) as [<- | Hne];
    [ rewrite lookup_insert_eq; intros [= <-]; reflexivity
    | rewrite lookup_insert_ne by assumption ]
  end.
  destruct (decide (ccb = JsUndefined)); [apply Hs|].
  destruct DEV; [|apply Hs].
  unfold warningWithoutStack. destruct (_ || _); apply Hs.
Qed.

(** ** Counters are private to their closure *)

Lemma invocations_invoke w w' a s :
  invocations w (trace (invoke w' a (log (EvInvoke w' a) s))) =
  (invocations w (trace s) + (if decide (w' = w) then 1 else 0))%nat.
Proof.
  rewrite trace_invoke. cbn [log trace].
  assert (H : invocations w (trace s ++ [EvInvoke w' a]) =
              (invocations w (trace s) + (if decide (w' = w) then 1 else 0))%nat).
  { rewrite invocations_snoc. cbn [is_invoke].
    destruct (decide (w' = w)) as [-> | Hne].
    - rewrite bool_decide_eq_true_2 by reflexivity. reflexivity.
    - rewrite bool_decide_eq_false_2 by assumption. reflexivity. }
  destruct (user_of w') as [f|]; [destruct (completes _ _)|]; rewrite ?app_nil_r; try exact H.
  rewrite (invocations_snoc w (trace s ++ [EvInvoke w' a])). cbn [is_invoke].
  rewrite Nat.add_0_r. exact H.
Qed.

Lemma done_since_invoke w i0 w' a s :
  done_since w i0 (invoke w' a (log (EvInvoke w' a) s)) =
  (done_since w i0 s + (if decide (w' = w) then 1 else 0))%Z.
Proof.
  unfold done_since. rewrite invocations_invoke.
  destruct (decide (w' = w)); lia.
Qed.

Lemma done_since_schedule w i0 r h c o v w' s :
  done_since w i0 (log (EvRootSetContext r h c o v w') s) = done_since w i0 s.
Proof.
  unfold done_since. cbn [log trace]. rewrite invocations_snoc. cbn [is_invoke]. lia.
Qed.

Section Counter.
Variables (w : Callback) (n : Z) (i0 : nat).

Lemma counter_inv_invoke w' a s :
  own_or_other_counter w w' -> counter_inv w n i0 s ->
  counter_inv w n i0 (invoke w' a (log (EvInvoke w' a) s)).
Proof.
  intros Hw' Hinv k Hk. specialize (Hinv k Hk).
  rewrite counters_invoke, done_since_invoke. cbn [log counters].
  destruct Hw' as [-> | [Hnone | Hother]].
  - rewrite Hk, lookup_alter_eq, Hinv. cbn.
    destruct (decide (w = w)); [|congruence]. f_equal. lia.
  - rewrite Hnone. destruct (decide (w' = w)) as [-> |]; [congruence|].
    rewrite Hinv. f_equal. lia.
  - destruct (decide (w' = w)) as [-> |]; [congruence|].
    destruct (counter_of w') as [k'|].
    + rewrite lookup_alter_ne by congruence. rewrite Hinv. f_equal. lia.
    + rewrite Hinv. f_equal. lia.
Qed.

Lemma counter_inv_schedule r h c o v w' s :
  counter_inv w n i0 s -> counter_inv w n i0 (log (EvRootSetContext r h c o v w') s).
Proof.
  intros Hinv k Hk. rewrite done_since_schedule. apply Hinv, Hk.
Qed.

Lemma counter_inv_run schedule s :
  Forall (fun i : Invocation => own_or_other_counter w i.1) schedule ->
  counter_inv w n i0 s -> counter_inv w n i0 (run schedule s).
Proof.
  apply run_preserves. intros; apply counter_inv_invoke; assumption.
Qed.

Lemma counter_inv_scheduleRoots roots c o v w' s :
  roots_call_only (own_or_other_counter w) roots c o v w' ->
  counter_inv w n i0 s -> counter_inv w n i0 (scheduleRoots roots c o v w' s).
Proof.
  apply scheduleRoots_preserves.
  - intros; apply counter_inv_invoke; assumption.
  - intros; apply counter_inv_schedule; assumption.
Qed.
End Counter.

Lemma own_or_elsewhere_counter w w' :
  own_or_elsewhere w w' -> own_or_other_counter w w'.
Proof. intros [-> | [H _]]; [left; reflexivity | right; exact H]. Qed.

(** ** When the commit happens *)

Section Commit.
Variables (w : Callback) (needed : Z) (i0 : nat) (o1 : Context).
Hypothesis needed_bound : counter_of w = None -> needed = 1%Z.

Lemma commit_inv_invoke w' a s :
  own_or_elsewhere w w' -> commit_inv w needed i0 o1 s ->
  commit_inv w needed i0 o1 (invoke w' a (log (EvInvoke w' a) s)).
Proof.
  intros Hw' (Hpos & Hcnt & Hctx).
  pose proof (counter_inv_invoke w needed i0 w' a s
                (own_or_elsewhere_counter w w' Hw') Hcnt) as Hcnt'.
  unfold commit_inv. split; [|split; [exact Hcnt'|]].
  { rewrite done_since_invoke. destruct (decide (w' = w)); lia. }
  rewrite contexts_invoke, done_since_invoke. cbn [log contexts counters].
  destruct Hw' as [-> | [_ Helse]].
  - destruct (decide (w = w)); [|congruence].
    destruct w as [k c v f | c v] eqn:Ew;
      cbn [commits completes context_of newValue_of log counters] in *.
    + rewrite (Hcnt k eq_refl).
      destruct (bool_decide_reflect
                  (Some (needed - done_since (WrappedCallback k c v f) i0 s)%Z = Some 1%Z))
        as [H1 | H1].
      * injection H1 as H1. rewrite lookup_alter_eq, Hctx. cbn.
        destruct (decide (needed ≤ _)%Z); [lia|].
        destruct (decide (needed ≤ _)%Z); [reflexivity | lia].
      * rewrite Hctx.
        destruct (decide (needed ≤ _)%Z); destruct (decide (needed ≤ _)%Z);
          try reflexivity; try lia.
        exfalso. apply H1. f_equal. lia.
    + rewrite (needed_bound eq_refl) in *.
      rewrite lookup_alter_eq, Hctx. cbn.
      destruct (decide (1 ≤ _)%Z); destruct (decide (1 ≤ _)%Z);
        try reflexivity; lia.
  - destruct (decide (w' = w)) as [-> |]; [congruence|].
    rewrite Z.add_0_r.
    destruct (commits w' _); [|exact Hctx].
    rewrite lookup_alter_ne by assumption. exact Hctx.
Qed.

Lemma commit_inv_schedule r h c o v w' s :
  commit_inv w needed i0 o1 s ->
  commit_inv w needed i0 o1 (log (EvRootSetContext r h c o v w') s).
Proof.
  intros (Hpos & Hcnt & Hctx). unfold commit_inv.
  split; [|split; [apply counter_inv_schedule, Hcnt|]];
    rewrite done_since_schedule; assumption.
Qed.

Lemma commit_inv_run schedule s :
  Forall (fun i : Invocation => own_or_elsewhere w i.1) schedule ->
  commit_inv w needed i0 o1 s -> commit_inv w needed i0 o1 (run schedule s).
Proof.
  apply run_preserves. intros; apply commit_inv_invoke; assumption.
Qed.

Lemma commit_inv_scheduleRoots roots c o v w' s :
  roots_call_only (own_or_elsewhere w) roots c o v w' ->
  commit_inv w needed i0 o1 s ->
  commit_inv w needed i0 o1 (scheduleRoots roots c o v w' s).
Proof.
  apply scheduleRoots_preserves.
  - intros; apply commit_inv_invoke; assumption.
  - intros; apply commit_inv_schedule; assumption.
Qed.
End Commit.

Lemma publish_commit_inv s context newValue userCallback o root nextGlobalRoot later :
  ReactRootList_first s = root :: nextGlobalRoot ->
  contexts s !! context = Some o ->
  let w := wrappedCallback_of s context newValue userCallback in
  roots_call_only (own_or_elsewhere w) (root :: nextGlobalRoot) context
    (default JsUndefined (globalValue s context)) newValue w ->
  Forall (fun i : Invocation => own_or_elsewhere w i.1) later ->
  commit_inv w
    (Z.of_nat (calls_needed userCallback (length (root :: nextGlobalRoot))))
    (invocations w (trace s)) (assign_globalValue newValue o)
    (run later (setContext context newValue userCallback s)).
Proof.
  intros Hroots Ho w Hsync Hlater.
  assert (Hnone : counter_of w = None ->
                  Z.of_nat (calls_needed userCallback (length (root :: nextGlobalRoot))) = 1%Z).
  { subst w. destruct userCallback; cbn; intros; first [reflexivity | discriminate]. }
  apply commit_inv_run; [exact Hnone | exact Hlater |].
  rewrite setContext_with_roots by (rewrite Hroots; discriminate).
  rewrite Hroots. fold w.
  apply commit_inv_scheduleRoots; [exact Hnone | exact Hsync |].
  assert (Hd : done_since w (invocations w (trace s))
                 (scheduling_start s context newValue userCallback) = 0%Z).
  { unfold done_since, scheduling_start.
    destruct userCallback; cbn [with_counters with_contexts trace]; lia. }
  unfold commit_inv. rewrite Hd.
  assert (Hc : context_of w = context) by (subst w; destruct userCallback; reflexivity).
  rewrite Hc.
  split; [lia | split].
  - intros k Hk. rewrite Hd. subst w. unfold scheduling_start.
    destruct userCallback; try discriminate.
    cbn in Hk. injection Hk as <-.
    cbn [with_counters counters calls_needed]. rewrite lookup_insert_eq, Hroots.
    f_equal; lia.
  - destruct (decide _) as [H | _].
    + exfalso. destruct userCallback; cbn in H; lia.
    + unfold scheduling_start.
      destruct userCallback; cbn [with_counters with_contexts contexts];
        rewrite lookup_alter_eq, Ho; reflexivity.
Qed.

(** ** Every call of a user function is a call without arguments *)

Lemma new_events_invoke s w a s' :
  trace s `prefix_of` trace s' ->
  Forall call_without_arguments (new_events s s') ->
  Forall call_without_arguments (new_events s (invoke w a s')).
Proof.
  unfold new_events. intros [tr Htr]. rewrite trace_invoke, Htr, <- app_assoc.
  rewrite !drop_app_length. intros H. apply Forall_app. split; [exact H|].
  destruct (user_of w); [destruct (completes w s')|]; repeat constructor.
Qed.

Lemma new_events_log s ev s' :
  call_without_arguments ev ->
  trace s `prefix_of` trace s' ->
  Forall call_without_arguments (new_events s s') ->
  Forall call_without_arguments (new_events s (log ev s')).
Proof.
  unfold new_events. intros Hev [tr Htr]. cbn [log trace]. rewrite Htr, <- app_assoc.
  rewrite !drop_app_length. intros H. apply Forall_app. split; [exact H|].
  repeat constructor. exact Hev.
Qed.

Lemma calls_pass_nothing_start s s' :
  trace s' = trace s -> calls_pass_nothing s s'.
Proof.
  intros H. split; [rewrite H; reflexivity|].
  unfold new_events. rewrite H, drop_all. constructor.
Qed.

Lemma calls_pass_nothing_log s ev s' :
  call_without_arguments ev ->
  calls_pass_nothing s s' -> calls_pass_nothing s (log ev s').
Proof.
  intros Hev [Hp Hf]. split; [|apply new_events_log; assumption].
  etrans; [exact Hp|]. cbn. apply prefix_app_r. reflexivity.
Qed.

Lemma calls_pass_nothing_invoke s w a s' :
  calls_pass_nothing s s' ->
  calls_pass_nothing s (invoke w a (log (EvInvoke w a) s')).
Proof.
  intros H. apply (calls_pass_nothing_log s (EvInvoke w a)) in H; [|exact I].
  destruct H as [Hp Hf]. split; [|apply new_events_invoke; assumption].
  etrans; [exact Hp|]. apply trace_invoke_grows.
Qed.

Lemma calls_pass_nothing_run s schedule s' :
  calls_pass_nothing s s' -> calls_pass_nothing s (run schedule s').
Proof.
  apply (run_preserves (fun _ => True)).
  - intros w a s'' _ H. apply calls_pass_nothing_invoke, H.
  - apply Forall_forall. trivial.
Qed.

Lemma calls_pass_nothing_scheduleRoots s roots c o v w s' :
  calls_pass_nothing s s' -> calls_pass_nothing s (scheduleRoots roots c o v w s').
Proof.
  apply (scheduleRoots_preserves (fun _ => True)).
  - intros w' a s'' _ H. apply calls_pass_nothing_invoke, H.
  - intros. apply calls_pass_nothing_log; [exact I | assumption].
  - apply Forall_forall. intros r _ h. apply Forall_forall. trivial.
Qed.

Lemma calls_pass_nothing_setContext s c v u :
  calls_pass_nothing s (setContext c v u s).
Proof.
  assert (H1 : calls_pass_nothing s
                 (with_contexts (alter (assign_globalValue v) c (contexts s)) s))
    by (apply calls_pass_nothing_start; reflexivity).
  destruct (decide (ReactRootList_first s = [])) as [Hroots | Hroots].
  - rewrite setContext_without_roots by assumption.
    destruct u; cbv zeta; try exact H1.
    apply (calls_pass_nothing_log s (EvCall cb [] _)); [reflexivity | exact H1].
  - rewrite setContext_with_roots by assumption.
    apply calls_pass_nothing_scheduleRoots.
    unfold scheduling_start. destruct u; exact H1.
Qed.

(** ** Two publishes in flight *)

Lemma roots_scheduleRoots roots c o v w s :
  ReactRootList_first (scheduleRoots roots c o v w s) = ReactRootList_first s.
Proof.
  apply (scheduleRoots_preserves (fun _ => True)
           (fun s' => ReactRootList_first s' = ReactRootList_first s)).
  - intros w' a s' _ H. rewrite roots_invoke. exact H.
  - intros; assumption.
  - apply Forall_forall. intros r _ h. apply Forall_forall. trivial.
  - reflexivity.
Qed.

Lemma roots_setContext c v u s :
  ReactRootList_first (setContext c v u s) = ReactRootList_first s.
Proof.
  destruct (decide (ReactRootList_first s = [])) as [Hroots | Hroots].
  - rewrite setContext_without_roots by assumption. destruct u; reflexivity.
  - rewrite setContext_with_roots, roots_scheduleRoots by assumption.
    unfold scheduling_start. destruct u; reflexivity.
Qed.

Lemma done_since_prefix w s s' :
  trace s `prefix_of` trace s' ->
  done_since w (invocations w (trace s)) s' =
  Z.of_nat (invocations w (trace s') - invocations w (trace s)).
Proof.
  intros H. apply (invocations_mono w) in H. unfold done_since. lia.
Qed.

Lemma roots_call_only_impl (P Q : Callback -> Prop) roots c o v w :
  (forall w', P w' -> Q w') ->
  roots_call_only P roots c o v w -> roots_call_only Q roots c o v w.
Proof.
  intros HPQ H. unfold roots_call_only in *.
  eapply Forall_impl; [exact H|]. cbn beta. intros r Hr h.
  eapply Forall_impl; [apply Hr|]. intros i. apply HPQ.
Qed.

(** The counter of the callback a publish hands out, at the start of its
    scheduling loop. *)
Lemma scheduling_start_counter_inv s c v u root nextGlobalRoot :
  ReactRootList_first s = root :: nextGlobalRoot ->
  let w := wrappedCallback_of s c v u in
  counter_inv w (Z.of_nat (length (root :: nextGlobalRoot)))
    (invocations w (trace s)) (scheduling_start s c v u).
Proof.
  intros Hroots w k Hk. subst w. unfold scheduling_start, done_since.
  destruct u; try discriminate. cbn in Hk. injection Hk as <-.
  cbn [with_counters with_contexts counters trace].
  rewrite lookup_insert_eq, Hroots. f_equal; lia.
Qed.

(** A later publish leaves the counter of an earlier closure alone. *)
Lemma scheduling_start_keeps_counter_inv w n i0 s c v u k :
  counter_of w = Some k ->
  is_Some (counters s !! k) ->
  counter_inv w n i0 s ->
  counter_inv w n i0 (scheduling_start s c v u).
Proof.
  intros Hk Hsome Hinv k' Hk'. specialize (Hinv k' Hk').
  assert (k' = k) as -> by congruence.
  unfold scheduling_start, done_since in *.
  destruct u; cbn [with_counters with_contexts counters trace]; try exact Hinv.
  rewrite lookup_insert_ne; [exact Hinv|].
  intros Heq. pose proof (fresh_counter_unused s) as Hfresh.
  rewrite Heq in Hfresh. rewrite Hfresh in Hsome. destruct Hsome; discriminate.
Qed.

Lemma overlapping_publishes_inv s context vA userCallbackA vB userCallbackB o root
    nextGlobalRoot later :
  ReactRootList_first s = root :: nextGlobalRoot ->
  contexts s !! context = Some o ->
  let roots := root :: nextGlobalRoot in
  let wA := wrappedCallback_of s context vA userCallbackA in
  let sA := setContext context vA userCallbackA s in
  let wB := wrappedCallback_of sA context vB userCallbackB in
  roots_call_only (own_or_other_counter wA) roots context (_globalValue o) vA wA ->
  roots_call_only (leaves_counters_alone wA wB) roots context vA vB wB ->
  Forall (fun i : Invocation => leaves_counters_alone wA wB i.1) later ->
  let sB := setContext context vB userCallbackB sA in
  let s' := run later sB in
  (forall kA, counter_of wA = Some kA -> is_Some (counters sA !! kA))
  ∧ counter_inv wA (Z.of_nat (length roots)) (invocations wA (trace s)) s'
  ∧ counter_inv wB (Z.of_nat (length roots)) (invocations wB (trace sA)) s'
  ∧ globalValue sA context = Some vA
  ∧ root_calls (trace sB) =
    root_calls (trace s)
    ++ map (fun r => (rootId r, Some vA, context, _globalValue o, vA)) roots
    ++ map (fun r => (rootId r, Some vB, context, vA, vB)) roots
  ∧ globalValue s' context = Some vB.
Proof.
  intros Hroots Ho roots wA sA wB HA HB Hlater sB s'.
  assert (Hold : default JsUndefined (globalValue s context) = _globalValue o)
    by (unfold globalValue; rewrite Ho; reflexivity).
  (* the first publish *)
  assert (HsA : sA = scheduleRoots roots context (_globalValue o) vA wA
                       (scheduling_start s context vA userCallbackA)).
  { unfold sA. rewrite setContext_with_roots by (rewrite Hroots; discriminate).
    rewrite Hroots, Hold. reflexivity. }
  assert (HinvA : counter_inv wA (Z.of_nat (length roots)) (invocations wA (trace s)) sA).
  { rewrite HsA. apply counter_inv_scheduleRoots; [exact HA|].
    apply (scheduling_start_counter_inv s context vA userCallbackA root nextGlobalRoot Hroots). }
  assert (HsomeA : forall kA, counter_of wA = Some kA -> is_Some (counters sA !! kA))
    by (intros kA HkA; rewrite (HinvA kA HkA); eexists; reflexivity).
  destruct (setContext_intent s context vA userCallbackA o Ho) as [HgA HrA].
  fold sA in HgA, HrA. rewrite Hroots in HrA. fold roots in HrA.
  assert (HrootsA : ReactRootList_first sA = root :: nextGlobalRoot)
    by (unfold sA; rewrite roots_setContext; exact Hroots).
  destruct (contexts sA !! context) as [oA|] eqn:HoA;
    [|unfold globalValue in HgA; rewrite HoA in HgA; discriminate].
  assert (HvA : _globalValue oA = vA)
    by (unfold globalValue in HgA; rewrite HoA in HgA; injection HgA; trivial).
  assert (HoldA : default JsUndefined (globalValue sA context) = vA)
    by (unfold globalValue; rewrite HoA; exact HvA).
  (* the second publish *)
  assert (HsB : sB = scheduleRoots roots context vA vB wB
                       (scheduling_start sA context vB userCallbackB)).
  { unfold sB. rewrite setContext_with_roots by (rewrite HrootsA; discriminate).
    rewrite HrootsA, HoldA. reflexivity. }
  destruct (setContext_intent sA context vB userCallbackB oA HoA) as [HgB HrB].
  fold sB in HgB, HrB. rewrite HrootsA, HvA in HrB. fold roots in HrB.
  split; [exact HsomeA|]. split; [|split; [|split; [exact HgA|split]]].
  - apply counter_inv_run.
    { eapply Forall_impl; [exact Hlater|]. intros i [H _]. exact H. }
    rewrite HsB. apply counter_inv_scheduleRoots.
    { eapply roots_call_only_impl; [|exact HB]. intros w' [H _]. exact H. }
    intros kA HkA.
    exact (scheduling_start_keeps_counter_inv wA _ _ sA context vB userCallbackB kA
             HkA (HsomeA kA HkA) HinvA kA HkA).
  - apply counter_inv_run.
    { eapply Forall_impl; [exact Hlater|]. intros i [_ H]. exact H. }
    rewrite HsB. apply counter_inv_scheduleRoots.
    { eapply roots_call_only_impl; [|exact HB]. intros w' [_ H]. exact H. }
    apply (scheduling_start_counter_inv sA context vB userCallbackB root nextGlobalRoot HrootsA).
  - rewrite HrB, HrA, <- app_assoc. reflexivity.
  - destruct (run_keeps_intent later sB context) as [Hg _].
    unfold s'. rewrite Hg. exact HgB.
Qed.

(** * The claims *)

(** Discharges, for sample roots, that the callbacks they call are the ones
    a statement allows. *)
Ltac solve_calls :=
  unfold roots_call_only;
  repeat first
    [ match goal with |- Forall _ _ => constructor end
    | progress intros
    | progress cbn [root_setContext synchronous_root deferring_root repeating_root fst]
    | match goal with |- leaves_counters_alone _ _ _ => split end
    | left; reflexivity
    | right; split; discriminate
    | right; right; vm_compute; discriminate ].


(** C1.  Barrier correctness.  A publish with a user callback [cb] on a
    registry of [n >= 1] roots creates one closure [w] and hands it to the
    roots.  Let the roots call it, and callbacks of other publishes, in any
    order, before the scheduling loop returns or after it.  Once [w] has
    been called [done] times, [cb] has been called once if [n <= done] and
    not at all if [done < n]; the counter holds [n - done]; and the next call
    of [w] calls [cb] exactly when it is the [n]-th. *)
Theorem barrier_correctness s context newValue cb root nextGlobalRoot later :
  ReactRootList_first s = root :: nextGlobalRoot ->
  let n := length (root :: nextGlobalRoot) in
  let oldValue := default JsUndefined (globalValue s context) in
  let w := WrappedCallback (fresh (dom (counters s))) context newValue cb in
  roots_call_only (own_or_unrelated w) (root :: nextGlobalRoot)
    context oldValue newValue w ->
  Forall (fun i : Invocation => own_or_unrelated w i.1) later ->
  let s' := run later (setContext context newValue (CallbackFn cb) s) in
  let done := (invocations w (trace s') - invocations w (trace s))%nat in
  calls cb (trace s') =
    (calls cb (trace s) + (if decide (n ≤ done)%nat then 1 else 0))%nat
  ∧ counters s' !! fresh (dom (counters s)) = Some (Z.of_nat n - Z.of_nat done)%Z
  ∧ forall a,
      trace (invoke w a s') =
      trace s' ++ (if decide (done + 1 = n)%nat
                   then [EvCall cb [] (contexts (invoke w a s'))] else []).
Proof.
  intros Hroots n oldValue w Hsync Hlater s' done.
  destruct (publish_barrier_inv s context newValue cb root nextGlobalRoot later
              Hroots Hsync Hlater) as [Hcnt Hcalls].
  fold w s' in Hcnt, Hcalls.
  pose proof (publish_done_since s context newValue (CallbackFn cb) later w) as Hd.
  cbv zeta in Hd. fold s' done in Hd. rewrite Hd in Hcnt, Hcalls. fold n in Hcnt, Hcalls.
  split; [|split].
  - rewrite Hcalls. destruct (decide _), (decide _); lia.
  - exact Hcnt.
  - intros a. rewrite trace_invoke. cbn [w user_of completes]. rewrite Hcnt.
    destruct (decide (done + 1 = n)%nat) as [H | H].
    + rewrite bool_decide_eq_true_2; [reflexivity | f_equal; lia].
    + rewrite bool_decide_eq_false_2; [reflexivity |].
      intros [= H']. lia.
Qed.

(** C6.  No double fire.  In the setting of C1, [cb] is never called a
    second time: however often the closure is called, the trace gains at
    most one call of [cb]; and once the closure has been called [n] times
    or more, one call of [cb] has been made and a further call of the
    closure makes none. *)
Theorem no_double_fire s context newValue cb root nextGlobalRoot later :
  ReactRootList_first s = root :: nextGlobalRoot ->
  let n := length (root :: nextGlobalRoot) in
  let oldValue := default JsUndefined (globalValue s context) in
  let w := WrappedCallback (fresh (dom (counters s))) context newValue cb in
  roots_call_only (own_or_unrelated w) (root :: nextGlobalRoot)
    context oldValue newValue w ->
  Forall (fun i : Invocation => own_or_unrelated w i.1) later ->
  let s' := run later (setContext context newValue (CallbackFn cb) s) in
  let done := (invocations w (trace s') - invocations w (trace s))%nat in
  (calls cb (trace s') ≤ calls cb (trace s) + 1)%nat
  ∧ ((n ≤ done)%nat ->
     calls cb (trace s') = (calls cb (trace s) + 1)%nat
     ∧ forall a, trace (invoke w a s') = trace s').
Proof.
  intros Hroots n oldValue w Hsync Hlater s' done.
  destruct (publish_barrier_inv s context newValue cb root nextGlobalRoot later
              Hroots Hsync Hlater) as [Hcnt Hcalls].
  fold w s' in Hcnt, Hcalls.
  pose proof (publish_done_since s context newValue (CallbackFn cb) later w) as Hd.
  cbv zeta in Hd. fold s' done in Hd. rewrite Hd in Hcnt, Hcalls. fold n in Hcnt, Hcalls.
  split.
  - rewrite Hcalls. destruct (decide _); lia.
  - intros Hn. split.
    + rewrite Hcalls. destruct (decide _); lia.
    + intros a. rewrite trace_invoke. cbn [w user_of completes]. rewrite Hcnt.
      rewrite bool_decide_eq_false_2; [apply app_nil_r |].
      intros [= H']. lia.
Qed.

(** C1 on the scenario of three roots, two of which finish before the
    scheduling loop returns and one later: [publish(7, cb)], then the third
    call. *)
Lemma barrier_correctness_witness :
  let s := sample_store [synchronous_root 1; synchronous_root 2; deferring_root 3] in
  let w := WrappedCallback 0 0 (JsNumber 7) 9 in
  let s1 := setContext 0 (JsNumber 7) (CallbackFn 9) s in
  let s2 := run [(w, JsNull)] s1 in
  (calls 9 (trace s1) = 0 ∧ counters s1 !! 0 = Some 1%Z)
  ∧ (calls 9 (trace s2) = 1 ∧ counters s2 !! 0 = Some 0%Z).
Proof.
  intros s w s1 s2.
  destruct (barrier_correctness s 0 (JsNumber 7) 9
              (synchronous_root 1) [synchronous_root 2; deferring_root 3] []
              eq_refl ltac:(solve_calls) ltac:(solve_calls)) as (H1 & H2 & _).
  destruct (barrier_correctness s 0 (JsNumber 7) 9
              (synchronous_root 1) [synchronous_root 2; deferring_root 3] [(w, JsNull)]
              eq_refl ltac:(solve_calls) ltac:(solve_calls)) as (H3 & H4 & _).
  split; split; [exact H1 | exact H2 | exact H3 | exact H4].
Defined.

(** C6 on two roots, one of them faulty: three calls for a count of two. *)
Lemma no_double_fire_witness :
  let s := sample_store [repeating_root 1; synchronous_root 2] in
  let w := WrappedCallback 0 0 (JsNumber 7) 9 in
  let s' := run [(w, JsNull); (w, JsNull)] (setContext 0 (JsNumber 7) (CallbackFn 9) s) in
  invocations w (trace s') = 5
  ∧ calls 9 (trace s') = 1
  ∧ forall a, trace (invoke w a s') = trace s'.
Proof.
  intros s w s'.
  destruct (no_double_fire s 0 (JsNumber 7) 9
              (repeating_root 1) [synchronous_root 2] [(w, JsNull); (w, JsNull)]
              eq_refl ltac:(solve_calls) ltac:(solve_calls)) as (_ & H).
  destruct H as (H1 & H2); [vm_compute; lia |].
  split; [reflexivity | split; [exact H1 | exact H2]].
Defined.

(** C3.  The fast path.  With no root mounted, [setContext] commits before it
    returns: both current slots (and [_globalValue]) hold [newValue]; the
    user callback, if there is one, is called once and nothing else is
    logged, so no root is scheduled; and no counter is created or changed. *)
Theorem no_roots_fast_path s context newValue userCallback o :
  ReactRootList_first s = [] ->
  contexts s !! context = Some o ->
  let s' := setContext context newValue userCallback s in
  currentValue s' context = Some newValue
  ∧ currentValue2 s' context = Some newValue
  ∧ globalValue s' context = Some newValue
  ∧ trace s' = trace s ++ match userCallback with
                          | CallbackFn cb => [EvCall cb [] (contexts s')]
                          | CallbackUndefined | CallbackNull => []
                          end
  ∧ counters s' = counters s.
Proof.
  intros Hroots Ho s'. subst s'.
  unfold setContext, currentValue, currentValue2, globalValue.
  cbn [with_contexts ReactRootList_first]. rewrite Hroots.
  destruct userCallback;
    cbn [call contextDidUpdate with_contexts log contexts counters trace];
    rewrite !lookup_alter_eq, Ho, ?app_nil_r; cbn; repeat split; reflexivity.
Qed.

Lemma no_roots_fast_path_witness :
  let s := sample_store [] in
  let s' := setContext 0 (JsNumber 5) (CallbackFn 9) s in
  currentValue s' 0 = Some (JsNumber 5)
  ∧ currentValue2 s' 0 = Some (JsNumber 5)
  ∧ globalValue s' 0 = Some (JsNumber 5)
  ∧ trace s' = [EvCall 9 [] (contexts s')]
  ∧ counters s' = ∅.
Proof.
  intros s s'.
  exact (no_roots_fast_path s 0 (JsNumber 5) (CallbackFn 9) _ eq_refl eq_refl).
Defined.

(** C5.  Publish intent comes first.  After [setContext] returns,
    [_globalValue] is [newValue], whatever the roots did or did not do; and
    the scheduling loop called every mounted root, in order, with the
    [_globalValue] of before the call as [oldValue], at a moment when the
    context's [_globalValue] already was [newValue]. *)
Theorem publish_intent_first s context newValue userCallback o :
  contexts s !! context = Some o ->
  let s' := setContext context newValue userCallback s in
  globalValue s' context = Some newValue
  ∧ root_calls (trace s') =
    root_calls (trace s) ++
    map (fun r => (rootId r, Some newValue, context, _globalValue o, newValue))
        (ReactRootList_first s).
Proof. apply setContext_intent. Qed.

Lemma publish_intent_first_witness :
  let s := sample_store [deferring_root 1; synchronous_root 2] in
  let s' := setContext 0 (JsNumber 7) (CallbackFn 9) s in
  globalValue s' 0 = Some (JsNumber 7)
  ∧ root_calls (trace s') =
    [(1, Some (JsNumber 7), 0, JsNumber 0, JsNumber 7);
     (2, Some (JsNumber 7), 0, JsNumber 0, JsNumber 7)].
Proof.
  intros s s'.
  exact (publish_intent_first s 0 (JsNumber 7) (CallbackFn 9) _ eq_refl).
Defined.

(** C10.  The commit step is idempotent.  One run of [contextDidUpdate]
    puts [newValue] in both current slots of the context and changes nothing
    else: not [_globalValue], not the other fields of the object, no other
    context, no counter, not the trace.  Running it with the same context
    and value once more, any number of times, leaves the store as one run
    leaves it; and when the roots call the bound commit of the path without
    user callback, however often and with whatever argument, the context heap
    is the one a single commit produces, with [newValue] in both slots. *)
Theorem contextDidUpdate_idempotent context newValue s :
  (forall k, Nat.iter (S k) (contextDidUpdate context newValue) s
             = contextDidUpdate context newValue s)
  ∧ (forall a args,
       contexts (run (map (fun a' => (BoundContextDidUpdate context newValue, a'))
                          (a :: args)) s)
       = contexts (contextDidUpdate context newValue s))
  ∧ (forall o, contexts s !! context = Some o ->
       (forall k,
          let s' := Nat.iter (S k) (contextDidUpdate context newValue) s in
          currentValue s' context = Some newValue
          ∧ currentValue2 s' context = Some newValue
          ∧ globalValue s' context = Some (_globalValue o)
          ∧ identity_of <$> contexts s' !! context = Some (identity_of o)
          ∧ (forall c, c <> context -> contexts s' !! c = contexts s !! c)
          ∧ counters s' = counters s
          ∧ trace s' = trace s
          ∧ ReactRootList_first s' = ReactRootList_first s)
       ∧ (forall a args,
            let s' := run (map (fun a' => (BoundContextDidUpdate context newValue, a'))
                               (a :: args)) s in
            currentValue s' context = Some newValue
            ∧ currentValue2 s' context = Some newValue
            ∧ globalValue s' context = Some (_globalValue o))).
Proof.
  assert (Hrun : forall a args,
            contexts (run (map (fun a' => (BoundContextDidUpdate context newValue, a'))
                               (a :: args)) s)
            = contexts (contextDidUpdate context newValue s)).
  { intros a args. revert a s. induction args as [|a' args IH]; intros a s'.
    - reflexivity.
    - change (map _ (a :: a' :: args))
        with ((BoundContextDidUpdate context newValue, a)
              :: map (fun a'' => (BoundContextDidUpdate context newValue, a''))
                     (a' :: args)).
      cbn [run invoke]. rewrite IH.
      unfold contextDidUpdate. cbn [with_contexts log contexts].
      apply alter_twice. reflexivity. }
  assert (Hiter : forall k, Nat.iter (S k) (contextDidUpdate context newValue) s
                            = contextDidUpdate context newValue s).
  { induction k as [|k IH]; [reflexivity|].
    change (Nat.iter (S (S k)) (contextDidUpdate context newValue) s)
      with (contextDidUpdate context newValue
              (Nat.iter (S k) (contextDidUpdate context newValue) s)).
    rewrite IH. apply contextDidUpdate_twice. }
  split; [exact Hiter | split; [exact Hrun|]].
  intros o Ho. split.
  - intros k s'. subst s'. rewrite Hiter.
    unfold currentValue, currentValue2, globalValue, contextDidUpdate.
    cbn [with_contexts contexts counters trace ReactRootList_first].
    rewrite !lookup_alter_eq, Ho. repeat split; try reflexivity.
    intros c Hc. apply lookup_alter_ne. congruence.
  - intros a args s'. subst s'.
    unfold currentValue, currentValue2, globalValue. rewrite Hrun.
    unfold contextDidUpdate. cbn [with_contexts contexts].
    rewrite !lookup_alter_eq, Ho. repeat split; reflexivity.
Qed.

(** C10 on a context that holds [0]: three commits of [7], and three calls
    of the bound commit of [7] by the roots. *)
Lemma contextDidUpdate_idempotent_witness :
  let s := sample_store [] in
  let s3 := Nat.iter 3 (contextDidUpdate 0 (JsNumber 7)) s in
  let w := BoundContextDidUpdate 0 (JsNumber 7) in
  let r3 := run [(w, JsUndefined); (w, JsNull); (w, JsNumber 7)] s in
  s3 = contextDidUpdate 0 (JsNumber 7) s
  ∧ (currentValue s3 0 = Some (JsNumber 7)
     ∧ currentValue2 s3 0 = Some (JsNumber 7)
     ∧ globalValue s3 0 = Some (JsNumber 0))
  ∧ (currentValue r3 0 = Some (JsNumber 7)
     ∧ currentValue2 r3 0 = Some (JsNumber 7)
     ∧ globalValue r3 0 = Some (JsNumber 0)).
Proof.
  intros s s3 w r3.
  destruct (contextDidUpdate_idempotent 0 (JsNumber 7) s) as (H1 & _ & H3).
  destruct (H3 _ eq_refl) as (H4 & H5).
  destruct (H4 2) as (Ha & Hb & Hc & _).
  split; [exact (H1 2)|]. split; [repeat split; assumption|].
  exact (H5 JsUndefined [JsNull; JsNumber 7]).
Defined.

(** C7.  Commit atomicity.  In every store the module can reach, the two
    current slots of every context hold the same value: they start out as
    the default value, and every write to one of them is a commit, which
    writes both. *)
Theorem commit_atomicity s :
  reachable s -> current_slots_agree s.
Proof.
  induction 1 as [roots | DEV d ccb s _ IH | c v u s _ IH | schedule s _ IH | roots s _ IH].
  - intros c o. cbn. rewrite lookup_empty. discriminate.
  - apply agree_createContext, IH.
  - apply agree_setContext, IH.
  - apply agree_run, IH.
  - exact IH.
Qed.

Lemma commit_atomicity_witness :
  let w := WrappedCallback 0 0 (JsNumber 7) 9 in
  let s := run [(w, JsNull)]
             (setContext 0 (JsNumber 7) (CallbackFn 9)
                (sample_store [synchronous_root 1; deferring_root 2])) in
  currentValue s 0 = Some (JsNumber 7) ∧ current_slots_agree s.
Proof.
  intros w s. split; [reflexivity|].
  apply commit_atomicity.
  apply reach_callback, reach_setContext, reach_createContext, reach_initial.
Defined.

(** C2, as the code has it.  The current slots are written by the commit
    alone, and the commit of a publish on [n >= 1] roots runs when the
    callback handed to the roots has been called [calls_needed] times: [n]
    times when a user callback was given (the closure counts the roots down
    to zero), once when none was given (the roots are handed the commit
    itself, which keeps no count).  Until then both slots hold what they
    held before the publish; from then on both hold [newValue]. *)
Theorem commit_timing s context newValue userCallback o root nextGlobalRoot later :
  ReactRootList_first s = root :: nextGlobalRoot ->
  contexts s !! context = Some o ->
  let n := length (root :: nextGlobalRoot) in
  let oldValue := default JsUndefined (globalValue s context) in
  let w := wrappedCallback_of s context newValue userCallback in
  roots_call_only (own_or_elsewhere w) (root :: nextGlobalRoot)
    context oldValue newValue w ->
  Forall (fun i : Invocation => own_or_elsewhere w i.1) later ->
  let s' := run later (setContext context newValue userCallback s) in
  let done := (invocations w (trace s') - invocations w (trace s))%nat in
  currentValue s' context =
    Some (if decide (calls_needed userCallback n ≤ done)%nat
          then newValue else _currentValue o)
  ∧ currentValue2 s' context =
    Some (if decide (calls_needed userCallback n ≤ done)%nat
          then newValue else _currentValue2 o).
Proof.
  intros Hroots Ho n oldValue w Hsync Hlater s' done.
  destruct (publish_commit_inv s context newValue userCallback o root nextGlobalRoot
              later Hroots Ho Hsync Hlater) as (_ & _ & Hctx).
  fold w s' n in Hctx.
  pose proof (publish_done_since s context newValue userCallback later w) as Hd.
  cbv zeta in Hd. fold s' done in Hd. rewrite Hd in Hctx.
  assert (Hc : context_of w = context) by (subst w; destruct userCallback; reflexivity).
  assert (Hv : newValue_of w = newValue) by (subst w; destruct userCallback; reflexivity).
  rewrite Hc, Hv in Hctx.
  unfold currentValue, currentValue2. rewrite Hctx.
  destruct (decide (_ ≤ _)%Z); destruct (decide (_ ≤ _)%nat); try lia;
    split; reflexivity.
Qed.

(** Two roots that finish later, a publish without user callback, and the
    first of the two calls: the slots change at that call. *)
Lemma commit_timing_witness :
  let s := sample_store [deferring_root 1; deferring_root 2] in
  let w := BoundContextDidUpdate 0 (JsNumber 7) in
  let s0 := setContext 0 (JsNumber 7) CallbackUndefined s in
  let s1 := run [(w, JsUndefined)] s0 in
  (currentValue s0 0 = Some (JsNumber 0) ∧ currentValue2 s0 0 = Some (JsNumber 0))
  ∧ (currentValue s1 0 = Some (JsNumber 7) ∧ currentValue2 s1 0 = Some (JsNumber 7)).
Proof.
  intros s w s0 s1. split.
  - exact (commit_timing s 0 (JsNumber 7) CallbackUndefined _
             (deferring_root 1) [deferring_root 2] []
             eq_refl eq_refl ltac:(solve_calls) ltac:(solve_calls)).
  - exact (commit_timing s 0 (JsNumber 7) CallbackUndefined _
             (deferring_root 1) [deferring_root 2] [(w, JsUndefined)]
             eq_refl eq_refl ltac:(solve_calls) ltac:(solve_calls)).
Defined.

(** C2 as stated fails: with two roots mounted and no user callback, the
    roots are handed the bound commit; after one of the two has called it
    the slots already hold the new value. *)
Lemma commit_before_all_roots_counterexample :
  let s := sample_store [deferring_root 1; deferring_root 2] in
  let w := BoundContextDidUpdate 0 (JsNumber 7) in
  let s0 := setContext 0 (JsNumber 7) CallbackUndefined s in
  let s1 := run [(w, JsUndefined)] s0 in
  length (ReactRootList_first s) = 2
  ∧ scheduled_callbacks (trace s0) = [w; w]
  ∧ currentValue s0 0 = Some (JsNumber 0)
  ∧ invocations w (trace s1) = 1
  ∧ currentValue s1 0 = Some (JsNumber 7)
  ∧ currentValue2 s1 0 = Some (JsNumber 7).
Proof. vm_compute. repeat split; reflexivity. Qed.

(** C4, as the code has it.  The user callback is called with no argument,
    and only after the commit: the context heap it is called against is the
    heap the step ends with, in which both current slots of the context hold
    [newValue].  On the fast path [setContext] commits and then calls it;
    with roots mounted the closure does, on the call that brings its counter
    to zero, and on no other; and whatever the roots do, during the publish
    or later, no call of a user function that gets logged passes an
    argument. *)
Theorem callback_called_without_arguments s context newValue cb o k a :
  contexts s !! context = Some o ->
  (ReactRootList_first s = [] ->
   let s' := setContext context newValue (CallbackFn cb) s in
   trace s' = trace s ++ [EvCall cb [] (contexts s')]
   ∧ currentValue s' context = Some newValue
   ∧ currentValue2 s' context = Some newValue)
  ∧ (let w := WrappedCallback k context newValue cb in
     let s' := invoke w a s in
     if completes w s
     then trace s' = trace s ++ [EvCall cb [] (contexts s')]
          ∧ currentValue s' context = Some newValue
          ∧ currentValue2 s' context = Some newValue
     else trace s' = trace s)
  ∧ (forall userCallback later,
       Forall call_without_arguments
         (new_events s (run later (setContext context newValue userCallback s)))).
Proof.
  intros Ho. split; [|split].
  - intros Hroots s'. subst s'. rewrite setContext_without_roots by assumption.
    unfold currentValue, currentValue2.
    cbn [call contextDidUpdate with_contexts log contexts trace].
    rewrite !lookup_alter_eq, Ho. repeat split; reflexivity.
  - cbv zeta. rewrite trace_invoke. unfold currentValue, currentValue2.
    rewrite contexts_invoke. cbn [user_of commits context_of newValue_of].
    destruct (completes _ s).
    + rewrite lookup_alter_eq, Ho. repeat split; reflexivity.
    + apply app_nil_r.
  - intros userCallback later.
    apply (calls_pass_nothing_run s later), calls_pass_nothing_setContext.
Qed.

Lemma callback_called_without_arguments_witness :
  let s := sample_store [] in
  let s' := setContext 0 (JsNumber 5) (CallbackFn 9) s in
  trace s' = [EvCall 9 [] (contexts s')]
  ∧ currentValue s' 0 = Some (JsNumber 5)
  ∧ currentValue2 s' 0 = Some (JsNumber 5).
Proof.
  intros s s'.
  exact (proj1 (callback_called_without_arguments s 0 (JsNumber 5) 9 _ 0 JsUndefined
                  eq_refl) eq_refl).
Defined.

(** C4 as stated fails: [publish(5, cb)] with no root mounted calls [cb]
    with no argument, not with [5]; and so does the closure when the only
    root has finished. *)
Lemma callback_argument_counterexample :
  let s' := setContext 0 (JsNumber 5) (CallbackFn 9) (sample_store []) in
  let t' := setContext 0 (JsNumber 7) (CallbackFn 9) (sample_store [synchronous_root 1]) in
  user_calls (trace s') = [(9, [])]
  ∧ currentValue s' 0 = Some (JsNumber 5)
  ∧ user_calls (trace t') = [(9, [])]
  ∧ currentValue t' 0 = Some (JsNumber 7)
  ∧ [(9, [])] <> [(9, [JsNumber 5])]
  ∧ [(9, [])] <> [(9, [JsNumber 7])].
Proof.
  repeat split; try reflexivity; discriminate.
Qed.

(** C9, as the code has it.  A second argument that is neither [undefined]
    nor [null] nor a function is stored as it is: [createContext] warns in
    development mode (and says nothing in production), goes on, and returns
    a new context whose [_calculateChangedBits] is that argument and whose
    three value slots hold the default value; the other contexts are left
    alone. *)
Theorem createContext_keeps_second_argument DEV defaultValue calculateChangedBits s :
  calculateChangedBits <> JsUndefined ->
  calculateChangedBits <> JsNull ->
  typeof calculateChangedBits <> "function" ->
  let context := (createContext DEV defaultValue calculateChangedBits s).1 in
  let s' := (createContext DEV defaultValue calculateChangedBits s).2 in
  contexts s !! context = None
  ∧ trace s' = trace s ++ (if DEV
                           then [EvWarning createContext_message [calculateChangedBits]]
                           else [])
  ∧ context_typeof <$> contexts s' !! context = Some REACT_CONTEXT_TYPE
  ∧ _calculateChangedBits <$> contexts s' !! context = Some calculateChangedBits
  ∧ globalValue s' context = Some defaultValue
  ∧ currentValue s' context = Some defaultValue
  ∧ currentValue2 s' context = Some defaultValue
  ∧ forall c, c <> context -> contexts s' !! c = contexts s !! c.
Proof.
  intros Hundef Hnull Hfun context s'. subst context s'.
  unfold createContext, globalValue, currentValue, currentValue2.
  destruct (decide (calculateChangedBits = JsUndefined)) as [|_]; [contradiction|].
  assert (Hcond : bool_decide (calculateChangedBits = JsNull)
                  || bool_decide (typeof calculateChangedBits = "function") = false).
  { rewrite !bool_decide_eq_false_2 by assumption. reflexivity. }
  unfold warningWithoutStack. rewrite Hcond.
  cbn [fst snd with_contexts contexts trace].
  destruct DEV; cbn [log contexts trace]; rewrite ?app_nil_r, !lookup_insert_eq;
    (split; [apply not_elem_of_dom, is_fresh|]);
    repeat (split; [reflexivity|]);
    intros c Hc; rewrite lookup_insert_ne by congruence; reflexivity.
Qed.

Lemma createContext_keeps_second_argument_witness :
  let r := createContext true (JsNumber 0) (JsNumber 42) (initialStore []) in
  r.1 = 0
  ∧ trace r.2 = [EvWarning createContext_message [JsNumber 42]]
  ∧ _calculateChangedBits <$> contexts r.2 !! 0 = Some (JsNumber 42)
  ∧ currentValue r.2 0 = Some (JsNumber 0).
Proof.
  intros r.
  destruct (createContext_keeps_second_argument true (JsNumber 0) (JsNumber 42)
              (initialStore []))
    as (_ & H2 & _ & H4 & _ & H6 & _); [discriminate | discriminate | discriminate |].
  split; [reflexivity | split; [exact H2 | split; [exact H4 | exact H6]]].
Defined.

(** C9 as stated fails: [createContext(0, 42)] warns and then stores [42],
    not [null], as the change detector. *)
Lemma createContext_no_fallback_counterexample :
  let r := createContext true (JsNumber 0) (JsNumber 42) (initialStore []) in
  trace r.2 = [EvWarning createContext_message [JsNumber 42]]
  ∧ _calculateChangedBits <$> contexts r.2 !! r.1 = Some (JsNumber 42)
  ∧ _calculateChangedBits <$> contexts r.2 !! r.1 <> Some JsNull.
Proof.
  repeat split; try reflexivity; discriminate.
Qed.

(** C8, as the code has it.  Independence across publishes.  A publish [A]
    is in flight on [n >= 1] roots when a second publish [B] is made on the
    same context.  A publish that was given a user callback has a counter,
    one of its own; a publish that was given none has no counter, its roots
    being handed the commit itself.  Whatever the order in which the roots
    then call the two callbacks: the counter of [A], if it has one, is [n]
    less the calls of [A]'s callback alone, and the counter of [B], if it
    has one, [n] less the calls of [B]'s alone; the roots were handed each
    publish's own old and new value; [_globalValue] is the value of [B]; and
    the call of [A]'s callback that commits (the one that brings the counter
    to zero, or any call when [A] has no counter) commits [A]'s value, after
    which [A]'s user callback, if any, is called; no other call of [A]'s
    closure commits or calls anything. *)
Theorem overlapping_publishes s context vA userCallbackA vB userCallbackB o root
    nextGlobalRoot later :
  ReactRootList_first s = root :: nextGlobalRoot ->
  contexts s !! context = Some o ->
  let roots := root :: nextGlobalRoot in
  let n := length roots in
  let wA := wrappedCallback_of s context vA userCallbackA in
  let sA := setContext context vA userCallbackA s in
  let wB := wrappedCallback_of sA context vB userCallbackB in
  roots_call_only (own_or_other_counter wA) roots context (_globalValue o) vA wA ->
  roots_call_only (leaves_counters_alone wA wB) roots context vA vB wB ->
  Forall (fun i : Invocation => leaves_counters_alone wA wB i.1) later ->
  let sB := setContext context vB userCallbackB sA in
  let s' := run later sB in
  let doneA := (invocations wA (trace s') - invocations wA (trace s))%nat in
  let doneB := (invocations wB (trace s') - invocations wB (trace sA))%nat in
  (counter_of wA = match userCallbackA with
                   | CallbackFn _ => Some (fresh (dom (counters s)))
                   | _ => None
                   end
   ∧ counter_of wB = match userCallbackB with
                     | CallbackFn _ => Some (fresh (dom (counters sA)))
                     | _ => None
                     end)
  ∧ (forall kA, counter_of wA = Some kA -> counter_of wB <> Some kA)
  ∧ (forall kA, counter_of wA = Some kA ->
                counters s' !! kA = Some (Z.of_nat n - Z.of_nat doneA)%Z)
  ∧ (forall kB, counter_of wB = Some kB ->
                counters s' !! kB = Some (Z.of_nat n - Z.of_nat doneB)%Z)
  ∧ root_calls (trace sB) =
    root_calls (trace s)
    ++ map (fun r => (rootId r, Some vA, context, _globalValue o, vA)) roots
    ++ map (fun r => (rootId r, Some vB, context, vA, vB)) roots
  ∧ globalValue s' context = Some vB
  ∧ (forall a,
       let s'' := invoke wA a s' in
       if commit_due userCallbackA n doneA
       then trace s'' =
              trace s' ++ match userCallbackA with
                          | CallbackFn cbA => [EvCall cbA [] (contexts s'')]
                          | _ => []
                          end
            ∧ currentValue s'' context = Some vA
            ∧ currentValue2 s'' context = Some vA
            ∧ globalValue s'' context = Some vB
       else trace s'' = trace s' ∧ contexts s'' = contexts s').
Proof.
  intros Hroots Ho roots n wA sA wB HA HB Hlater sB s' doneA doneB.
  destruct (overlapping_publishes_inv s context vA userCallbackA vB userCallbackB o root
              nextGlobalRoot later Hroots Ho HA HB Hlater)
    as (HsomeA & HinvA & HinvB & _ & Hcalls & Hglobal).
  fold roots wA sA wB sB s' in HsomeA, HinvA, HinvB, Hcalls, Hglobal. fold n in HinvA, HinvB.
  assert (HpB : trace sA `prefix_of` trace s').
  { etrans; [apply trace_setContext_grows|]. apply trace_run_grows. }
  assert (HpA : trace s `prefix_of` trace s').
  { etrans; [apply trace_setContext_grows|]. exact HpB. }
  unfold counter_inv in HinvA, HinvB.
  rewrite (done_since_prefix wA s s' HpA) in HinvA.
  rewrite (done_since_prefix wB sA s' HpB) in HinvB.
  fold doneA in HinvA. fold doneB in HinvB.
  split; [|split; [|split; [exact HinvA | split; [exact HinvB |
            split; [exact Hcalls | split; [exact Hglobal|]]]]]].
  - unfold wA, wB, wrappedCallback_of.
    destruct userCallbackA, userCallbackB; split; reflexivity.
  - intros kA HkA. unfold wB, wrappedCallback_of.
    destruct userCallbackB; cbn [counter_of]; try discriminate.
    intros [= Heq]. pose proof (fresh_counter_unused sA) as Hfresh.
    rewrite Heq in Hfresh. destruct (HsomeA kA HkA) as [z Hz].
    rewrite Hfresh in Hz. discriminate.
  - intros a s''. subst s''.
    assert (Hctx : exists o', contexts s' !! context = Some o' ∧ _globalValue o' = vB).
    { unfold globalValue in Hglobal.
      destruct (contexts s' !! context) as [o'|]; [|discriminate].
      exists o'. split; [reflexivity|]. injection Hglobal; trivial. }
    destruct Hctx as (o' & Ho' & Hg').
    rewrite trace_invoke, globalValue_invoke. unfold currentValue, currentValue2.
    rewrite contexts_invoke.
    assert (HcA : context_of wA = context)
      by (unfold wA; destruct userCallbackA; reflexivity).
    assert (HnA : newValue_of wA = vA)
      by (unfold wA; destruct userCallbackA; reflexivity).
    rewrite HcA, HnA.
    destruct userCallbackA as [| |cbA]; cbn [commit_due].
    + cbn [wA wrappedCallback_of user_of commits].
      rewrite app_nil_r, lookup_alter_eq, Ho'. repeat split; try reflexivity. exact Hglobal.
    + cbn [wA wrappedCallback_of user_of commits].
      rewrite app_nil_r, lookup_alter_eq, Ho'. repeat split; try reflexivity. exact Hglobal.
    + specialize (HinvA _ eq_refl).
      change (wrappedCallback_of s context vA (CallbackFn cbA))
        with (WrappedCallback (fresh (dom (counters s))) context vA cbA) in *.
      cbn [wA wrappedCallback_of user_of commits completes].
      destruct (bool_decide_reflect (doneA + 1 = n)%nat) as [Hlast | Hlast].
      * rewrite bool_decide_eq_true_2 by (rewrite HinvA; f_equal; lia).
        rewrite lookup_alter_eq, Ho'. repeat split; try reflexivity. exact Hglobal.
      * rewrite bool_decide_eq_false_2 by (rewrite HinvA; intros [= H]; lia).
        rewrite app_nil_r. split; reflexivity.
Qed.

(** C8 on two roots that finish later: [publish(1, cbA)], then
    [publish(2, cbB)]; one root finishes both, the other finishes [B] only.
    [B] is complete; [A] waits for its second call, and that call commits
    [1] and calls [cbA]. *)
Lemma overlapping_publishes_witness :
  let s := sample_store [deferring_root 1; deferring_root 2] in
  let wA := WrappedCallback 0 0 (JsNumber 1) 8 in
  let wB := WrappedCallback 1 0 (JsNumber 2) 9 in
  let sA := setContext 0 (JsNumber 1) (CallbackFn 8) s in
  let sB := setContext 0 (JsNumber 2) (CallbackFn 9) sA in
  let s' := run [(wB, JsUndefined); (wA, JsUndefined); (wB, JsUndefined)] sB in
  let s'' := invoke wA JsUndefined s' in
  counters s' !! 0 = Some 1%Z
  ∧ counters s' !! 1 = Some 0%Z
  ∧ globalValue s' 0 = Some (JsNumber 2)
  ∧ trace s'' = trace s' ++ [EvCall 8 [] (contexts s'')]
  ∧ currentValue s'' 0 = Some (JsNumber 1)
  ∧ currentValue2 s'' 0 = Some (JsNumber 1)
  ∧ globalValue s'' 0 = Some (JsNumber 2).
Proof.
  intros s wA wB sA sB s' s''.
  destruct (overlapping_publishes s 0 (JsNumber 1) (CallbackFn 8) (JsNumber 2)
              (CallbackFn 9) _
              (deferring_root 1) [deferring_root 2]
              [(wB, JsUndefined); (wA, JsUndefined); (wB, JsUndefined)]
              eq_refl eq_refl ltac:(solve_calls) ltac:(solve_calls) ltac:(solve_calls))
    as (_ & _ & H2 & H3 & _ & H5 & H6).
  split; [exact (H2 0 eq_refl)|]. split; [exact (H3 1 eq_refl)|]. split; [exact H5|].
  exact (H6 JsUndefined).
Defined.

(** C8 as stated fails: two publishes without user callback overlap on two
    roots that finish later, and neither has a counter; the roots hold the
    two bound commits and the counter heap is empty. *)
Lemma publishes_without_counters_counterexample :
  let s := sample_store [deferring_root 1; deferring_root 2] in
  let wA := BoundContextDidUpdate 0 (JsNumber 1) in
  let wB := BoundContextDidUpdate 0 (JsNumber 2) in
  let sA := setContext 0 (JsNumber 1) CallbackUndefined s in
  let sB := setContext 0 (JsNumber 2) CallbackUndefined sA in
  scheduled_callbacks (trace sB) = [wA; wA; wB; wB]
  ∧ counter_of wA = None
  ∧ counter_of wB = None
  ∧ counters sB = ∅
  ∧ currentValue sB 0 = Some (JsNumber 0).
Proof.
  repeat split; reflexivity.
Qed.

(** * Further properties of the module *)

(** ** [createContext] *)

Lemma createContext_ref DEV d ccb s :
  (createContext DEV d ccb s).1 = fresh (dom (contexts s)).
Proof.
  unfold createContext. cbn [fst].
  destruct (decide (ccb = JsUndefined)); [reflexivity|].
  destruct DEV; [|reflexivity].
  unfold warningWithoutStack. destruct (_ || _); reflexivity.
Qed.

Lemma createContext_lookup_new DEV d ccb s :
  exists o,
    contexts (createContext DEV d ccb s).2 !! (createContext DEV d ccb s).1 = Some o
    ∧ _globalValue o = d ∧ _currentValue o = d ∧ _currentValue2 o = d
    ∧ _calculateChangedBits o = (if decide (ccb = JsUndefined) then JsNull else ccb)
    ∧ well_formed_context (createContext DEV d ccb s).1 o.
Proof.
  unfold createContext. cbn [fst snd with_contexts contexts].
  eexists. rewrite lookup_insert_eq. split; [reflexivity|].
  cbn. repeat split; try reflexivity.
  - destruct DEV; [right | left]; reflexivity.
  - destruct (decide (ccb = JsUndefined)); [discriminate | assumption].
Qed.

Lemma createContext_lookup_old DEV d ccb s c :
  c <> (createContext DEV d ccb s).1 ->
  contexts (createContext DEV d ccb s).2 !! c = contexts s !! c.
Proof.
  rewrite createContext_ref. intros Hc.
  unfold createContext. cbn [snd with_contexts contexts].
  assert (Hsame : forall s0 : Store,
            (if decide (ccb = JsUndefined) then s
             else if DEV
                  then warningWithoutStack
                         (bool_decide (ccb = JsNull) || bool_decide (typeof ccb = "function"))
                         createContext_message [ccb] s
                  else s) = s0 -> contexts s0 = contexts s).
  { intros s0 <-. destruct (decide (ccb = JsUndefined)); [reflexivity|].
    destruct DEV; [|reflexivity].
    unfold warningWithoutStack. destruct (_ || _); reflexivity. }
  rewrite (Hsame _ eq_refl). rewrite lookup_insert_ne by congruence. reflexivity.
Qed.

Lemma createContext_rest DEV d ccb s :
  counters (createContext DEV d ccb s).2 = counters s
  ∧ ReactRootList_first (createContext DEV d ccb s).2 = ReactRootList_first s.
Proof.
  unfold createContext. cbn [snd with_contexts counters ReactRootList_first].
  destruct (decide (ccb = JsUndefined)); [split; reflexivity|].
  destruct DEV; [|split; reflexivity].
  unfold warningWithoutStack. destruct (_ || _); split; reflexivity.
Qed.

(** X1.  [createContext] always makes a new object: the reference it
    returns was not in use, the contexts that existed are as they were, and
    so are the counters and the list of roots.  The three value slots of
    the new context hold the default value, whatever the second argument;
    the change detector stored is that argument, with [null] for
    [undefined].  A later [createContext] never returns the same reference
    again. *)
Theorem createContext_allocates DEV defaultValue calculateChangedBits s :
  let context := (createContext DEV defaultValue calculateChangedBits s).1 in
  let s' := (createContext DEV defaultValue calculateChangedBits s).2 in
  contexts s !! context = None
  ∧ (forall c, c <> context -> contexts s' !! c = contexts s !! c)
  ∧ globalValue s' context = Some defaultValue
  ∧ currentValue s' context = Some defaultValue
  ∧ currentValue2 s' context = Some defaultValue
  ∧ _calculateChangedBits <$> contexts s' !! context =
    Some (if decide (calculateChangedBits = JsUndefined)
          then JsNull else calculateChangedBits)
  ∧ counters s' = counters s
  ∧ ReactRootList_first s' = ReactRootList_first s
  ∧ forall DEV' defaultValue' calculateChangedBits',
      (createContext DEV' defaultValue' calculateChangedBits' s').1 <> context.
Proof.
  intros context s'.
  destruct (createContext_lookup_new DEV defaultValue calculateChangedBits s)
    as (o & Ho & Hg & Hc & Hc2 & Hbits & _).
  fold context s' in Ho.
  destruct (createContext_rest DEV defaultValue calculateChangedBits s) as [Hcnt Hroots].
  unfold globalValue, currentValue, currentValue2. rewrite Ho.
  cbn [fmap option_fmap option_map]. rewrite Hg, Hc, Hc2, Hbits.
  split; [|split; [|repeat (split; [reflexivity || assumption|])]].
  - unfold context. rewrite createContext_ref. apply not_elem_of_dom, is_fresh.
  - intros c Hc'. apply createContext_lookup_old, Hc'.
  - intros DEV' d' ccb' Heq. rewrite createContext_ref in Heq.
    pose proof (is_fresh (dom (contexts s'))) as Hfresh.
    rewrite Heq in Hfresh. apply Hfresh, elem_of_dom. rewrite Ho. eexists; reflexivity.
Qed.

(** X2.  [createContext] reports a warning exactly when it runs in
    development mode and its second argument is neither [undefined] nor
    [null] nor a function; in every other case, and always in production, it
    logs nothing. *)
Theorem createContext_warns_iff DEV defaultValue calculateChangedBits s :
  trace (createContext DEV defaultValue calculateChangedBits s).2 =
  trace s ++ (if DEV && negb (accepted_calculateChangedBits calculateChangedBits)
              then [EvWarning createContext_message [calculateChangedBits]]
              else []).
Proof.
  unfold createContext, accepted_calculateChangedBits. cbn [snd with_contexts trace].
  destruct (decide (calculateChangedBits = JsUndefined)) as [Hu | Hu].
  - rewrite (bool_decide_eq_true_2 _ Hu). cbn. rewrite andb_false_r, app_nil_r. reflexivity.
  - rewrite (bool_decide_eq_false_2 _ Hu). cbn [orb].
    destruct DEV; cbn [andb]; [|rewrite app_nil_r; reflexivity].
    unfold warningWithoutStack.
    destruct (_ || _); cbn; [rewrite app_nil_r|]; reflexivity.
Qed.

(** ** What a publish leaves alone *)

Lemma identity_alter (f : Context -> Context) c (h : gmap nat Context) c' :
  (forall o, identity_of (f o) = identity_of o) ->
  identity_of <$> alter f c h !! c' = identity_of <$> h !! c'.
Proof.
  intros Hf. destruct (decide (c = c')) as [-> | Hne].
  - rewrite lookup_alter_eq. destruct (h !! c'); cbn; [rewrite Hf|]; reflexivity.
  - rewrite lookup_alter_ne by assumption. reflexivity.
Qed.

Lemma same_identities_invoke s w a s' :
  same_identities s s' -> same_identities s (invoke w a s').
Proof.
  intros H c. rewrite contexts_invoke.
  destruct (commits w s'); [|apply H].
  rewrite identity_alter by reflexivity. apply H.
Qed.

Lemma same_identities_run s schedule s' :
  same_identities s s' -> same_identities s (run schedule s').
Proof.
  apply (run_preserves (fun _ => True)).
  - intros w a s'' _ H. apply same_identities_invoke. exact H.
  - apply Forall_forall. trivial.
Qed.

Lemma same_identities_scheduleRoots s roots c o v w s' :
  same_identities s s' -> same_identities s (scheduleRoots roots c o v w s').
Proof.
  apply (scheduleRoots_preserves (fun _ => True)).
  - intros w' a s'' _ H. apply same_identities_invoke. exact H.
  - intros; assumption.
  - apply Forall_forall. intros r _ h. apply Forall_forall. trivial.
Qed.

Lemma same_identities_setContext s c v u :
  same_identities s (setContext c v u s).
Proof.
  assert (H1 : same_identities s
                 (with_contexts (alter (assign_globalValue v) c (contexts s)) s)).
  { intros c'. cbn [with_contexts contexts]. apply identity_alter. reflexivity. }
  destruct (decide (ReactRootList_first s = [])) as [Hroots | Hroots].
  - rewrite setContext_without_roots by assumption.
    assert (H2 : same_identities s
                   (contextDidUpdate c v
                      (with_contexts (alter (assign_globalValue v) c (contexts s)) s))).
    { intros c'. unfold contextDidUpdate. cbn [with_contexts contexts].
      rewrite identity_alter by reflexivity. apply H1. }
    destruct u; exact H2.
  - rewrite setContext_with_roots by assumption.
    apply same_identities_scheduleRoots.
    unfold scheduling_start. destruct u; exact H1.
Qed.

Lemma roots_run schedule s :
  ReactRootList_first (run schedule s) = ReactRootList_first s.
Proof.
  apply (run_preserves (fun _ => True)
           (fun s' => ReactRootList_first s' = ReactRootList_first s)).
  - intros w a s' _ H. rewrite roots_invoke. exact H.
  - apply Forall_forall. trivial.
  - reflexivity.
Qed.

(** X3.  A publish writes value slots and nothing else.  Whatever the roots
    do, during [setContext] or later, no context object appears or
    disappears, every context keeps its symbol, change detector, Provider,
    Consumer, [unstable_set] and renderer fields, and the list of roots is
    the one it was. *)
Theorem publish_writes_value_slots_only s context newValue userCallback later :
  let s' := run later (setContext context newValue userCallback s) in
  same_identities s s'
  ∧ dom (contexts s') = dom (contexts s)
  ∧ ReactRootList_first s' = ReactRootList_first s.
Proof.
  intros s'.
  assert (H : same_identities s s')
    by apply same_identities_run, same_identities_setContext.
  split; [exact H | split].
  - apply set_eq. intros c. rewrite !elem_of_dom.
    specialize (H c).
    destruct (contexts s' !! c), (contexts s !! c); try discriminate H.
    + split; intros _; eexists; reflexivity.
    + split; intros [? ?]; discriminate.
  - unfold s'. rewrite roots_run. apply roots_setContext.
Qed.

(** ** Context objects stay as they were built *)

Lemma well_formed_identity c o o' :
  identity_of o' = identity_of o -> well_formed_context c o -> well_formed_context c o'.
Proof.
  unfold identity_of, well_formed_context.
  intros [= Ht Hb Hp Hc Hu Hr Hr2]. rewrite Ht, Hb, Hp, Hc, Hu. trivial.
Qed.

Lemma well_formed_same_identities s s' :
  same_identities s s' ->
  (forall c o, contexts s !! c = Some o -> well_formed_context c o) ->
  forall c o, contexts s' !! c = Some o -> well_formed_context c o.
Proof.
  intros Hsame Hs c o' Ho'. specialize (Hsame c). rewrite Ho' in Hsame.
  destruct (contexts s !! c) as [o|] eqn:Ho; [|discriminate].
  assert (Hid : identity_of o' = identity_of o) by (cbn in Hsame; congruence).
  eapply well_formed_identity; [exact Hid | apply Hs, Ho].
Qed.

Lemma reachable_well_formed s :
  reachable s ->
  forall context o, contexts s !! context = Some o -> well_formed_context context o.
Proof.
  induction 1 as [roots | DEV d ccb s _ IH | c v u s _ IH | schedule s _ IH | roots s _ IH].
  - intros c o. cbn. rewrite lookup_empty. discriminate.
  - intros c o Ho.
    destruct (decide (c = (createContext DEV d ccb s).1)) as [-> | Hne].
    + destruct (createContext_lookup_new DEV d ccb s) as (o' & Ho' & _ & _ & _ & _ & Hwf).
      rewrite Ho' in Ho. injection Ho as <-. exact Hwf.
    + rewrite createContext_lookup_old in Ho by assumption. apply IH, Ho.
  - apply (well_formed_same_identities s); [apply same_identities_setContext | exact IH].
  - apply (well_formed_same_identities s); [|exact IH].
    apply same_identities_run. intros c. reflexivity.
  - exact IH.
Qed.

(** X4.  In every store the module can reach, every context object is as
    [createContext] built it, the value slots apart: it carries the context
    symbol; its Provider, its Consumer and its [unstable_set] point back at
    that very context; a development Consumer holds the context's own change
    detector; and the change detector is never [undefined].  So calling the
    [unstable_set] of a context object is a publish on that same context. *)
Theorem contexts_stay_well_formed s context o :
  reachable s ->
  contexts s !! context = Some o ->
  well_formed_context context o
  ∧ forall newValue userCallback,
      unstable_set_call (unstable_set o) newValue userCallback s
      = setContext context newValue userCallback s.
Proof.
  intros Hs Ho.
  pose proof (reachable_well_formed s Hs context o Ho) as Hwf.
  split; [exact Hwf|].
  destruct Hwf as (_ & _ & Hset & _). rewrite Hset. reflexivity.
Qed.

Lemma contexts_stay_well_formed_witness :
  let s := run [(WrappedCallback 0 0 (JsNumber 7) 9, JsNull)]
             (setContext 0 (JsNumber 7) (CallbackFn 9)
                (sample_store [synchronous_root 1; deferring_root 2])) in
  exists o, contexts s !! 0 = Some o
            ∧ _currentValue o = JsNumber 7
            ∧ well_formed_context 0 o
            ∧ unstable_set_call (unstable_set o) (JsNumber 8) CallbackNull s
              = setContext 0 (JsNumber 8) CallbackNull s.
Proof.
  intros s. eexists. split; [reflexivity|]. split; [reflexivity|].
  destruct (contexts_stay_well_formed s 0 _
              ltac:(apply reach_callback, reach_setContext, reach_createContext,
                          reach_initial)
              eq_refl) as [Hwf Hset].
  split; [exact Hwf | apply Hset].
Defined.

(** ** What the scheduling loop hands out *)

Lemma scheduled_snoc tr ev :
  scheduled (tr ++ [ev]) =
  scheduled tr ++ match ev with
                  | EvRootSetContext root _ _ _ _ w => [(root, w)]
                  | _ => []
                  end.
Proof.
  unfold scheduled. rewrite omap_app. cbn. destruct ev; reflexivity.
Qed.

Lemma scheduled_invoke w a s :
  scheduled (trace (invoke w a (log (EvInvoke w a) s))) = scheduled (trace s).
Proof.
  rewrite trace_invoke. cbn [log trace].
  destruct (user_of w); [destruct (completes w _)|];
    rewrite ?app_nil_r, !scheduled_snoc; cbn; rewrite ?app_nil_r; reflexivity.
Qed.

Lemma scheduled_run schedule s :
  scheduled (trace (run schedule s)) = scheduled (trace s).
Proof.
  apply (run_preserves (fun _ => True)
           (fun s' => scheduled (trace s') = scheduled (trace s))).
  - intros w a s' _ H. rewrite scheduled_invoke. exact H.
  - apply Forall_forall. trivial.
  - reflexivity.
Qed.

Lemma scheduled_scheduleRoots roots c o v w s :
  scheduled (trace (scheduleRoots roots c o v w s)) =
  scheduled (trace s) ++ map (fun r => (rootId r, w)) roots.
Proof.
  revert s. induction roots as [|r rest IH]; intros s; cbn [scheduleRoots map].
  - rewrite app_nil_r. reflexivity.
  - rewrite IH, scheduled_run. cbn [log trace].
    rewrite scheduled_snoc, <- app_assoc. reflexivity.
Qed.

(** X5.  Every mounted root is scheduled once.  Whatever the roots do when
    they are called, the scheduling loop of a publish calls
    [root.setContext] on every root of the list, once each and in list
    order, and on nothing else; each root is handed the callback of this
    publish: with a user callback the closure over the one counter this
    publish created, so that all roots count down the same number; without
    one a bound commit of this context and value.  With no root mounted no
    root is called. *)
Theorem every_root_is_scheduled_once s context newValue userCallback :
  scheduled (trace (setContext context newValue userCallback s)) =
  scheduled (trace s)
  ++ map (fun r => (rootId r,
                    match userCallback with
                    | CallbackFn cb =>
                        WrappedCallback (fresh (dom (counters s))) context newValue cb
                    | CallbackUndefined | CallbackNull =>
                        BoundContextDidUpdate context newValue
                    end))
         (ReactRootList_first s).
Proof.
  destruct (decide (ReactRootList_first s = [])) as [Hroots | Hroots].
  - rewrite setContext_without_roots by assumption. rewrite Hroots.
    cbn [map]. rewrite app_nil_r.
    destruct userCallback; cbn [call contextDidUpdate with_contexts log trace];
      rewrite ?scheduled_snoc, ?app_nil_r; reflexivity.
  - rewrite setContext_with_roots by assumption.
    rewrite scheduled_scheduleRoots.
    unfold scheduling_start, wrappedCallback_of. destruct userCallback; reflexivity.
Qed.

(** ** Counters are created by publishes and never given up *)

Lemma dom_counters_invoke w a s :
  dom (counters (invoke w a s)) = dom (counters s).
Proof.
  rewrite counters_invoke. destruct (counter_of w); [apply dom_alter_L | reflexivity].
Qed.

Lemma dom_counters_run schedule s :
  dom (counters (run schedule s)) = dom (counters s).
Proof.
  apply (run_preserves (fun _ => True)
           (fun s' => dom (counters s') = dom (counters s))).
  - intros w a s' _ H. rewrite dom_counters_invoke. exact H.
  - apply Forall_forall. trivial.
  - reflexivity.
Qed.

Lemma dom_counters_scheduleRoots roots c o v w s :
  dom (counters (scheduleRoots roots c o v w s)) = dom (counters s).
Proof.
  apply (scheduleRoots_preserves (fun _ => True)
           (fun s' => dom (counters s') = dom (counters s))).
  - intros w' a s' _ H. rewrite dom_counters_invoke. exact H.
  - intros; assumption.
  - apply Forall_forall. intros r _ h. apply Forall_forall. trivial.
  - reflexivity.
Qed.

(** X6.  A publish creates a counter exactly when it is given a user
    callback and at least one root is mounted, and then it creates one, at
    a reference not in use before.  No publish and no call of a callback
    ever removes a counter, whatever the roots do: the counter of a barrier
    stays after the barrier has completed. *)
Theorem one_counter_per_barrier s context newValue userCallback later :
  let s' := run later (setContext context newValue userCallback s) in
  dom (counters s') =
    match userCallback, ReactRootList_first s with
    | CallbackFn _, _ :: _ => {[fresh (dom (counters s))]} ∪ dom (counters s)
    | _, _ => dom (counters s)
    end
  ∧ fresh (dom (counters s)) ∉ dom (counters s).
Proof.
  intros s'. split; [|apply is_fresh].
  unfold s'. rewrite dom_counters_run.
  destruct (decide (ReactRootList_first s = [])) as [Hroots | Hroots].
  - rewrite setContext_without_roots by assumption. rewrite Hroots.
    destruct userCallback; reflexivity.
  - rewrite setContext_with_roots by assumption.
    rewrite dom_counters_scheduleRoots. unfold scheduling_start.
    destruct (ReactRootList_first s) as [|r rest]; [congruence|].
    destruct userCallback; cbn [with_counters with_contexts counters]; try reflexivity.
    apply dom_insert_L.
Qed.

(** ** A publish stays within its context *)

Lemma contexts_invoke_other w a s c :
  context_of w <> c -> contexts (invoke w a s) !! c = contexts s !! c.
Proof.
  intros Hne. rewrite contexts_invoke.
  destruct (commits w s); [|reflexivity].
  apply lookup_alter_ne. exact Hne.
Qed.

(** X7.  A publish on one context leaves every other context alone.  If the
    callbacks the roots call, during the publish and later, are callbacks
    of publishes on other contexts than [c], then the object of [c] is,
    field by field, the one it was before the publish. *)
Theorem publish_frame s context newValue userCallback later c :
  c <> context ->
  roots_call_only (fun w' => context_of w' <> c) (ReactRootList_first s) context
    (default JsUndefined (globalValue s context)) newValue
    (wrappedCallback_of s context newValue userCallback) ->
  Forall (fun i : Invocation => context_of i.1 <> c) later ->
  contexts (run later (setContext context newValue userCallback s)) !! c
  = contexts s !! c.
Proof.
  intros Hc Hsync Hlater.
  set (J := fun s' : Store => contexts s' !! c = contexts s !! c).
  assert (Hinvoke : forall w a s', context_of w <> c -> J s' ->
                                   J (invoke w a (log (EvInvoke w a) s'))).
  { intros w a s' Hw Hs'. unfold J. rewrite contexts_invoke_other by exact Hw. exact Hs'. }
  apply (run_preserves (fun w' => context_of w' <> c) J Hinvoke later); [exact Hlater|].
  assert (H1 : J (with_contexts (alter (assign_globalValue newValue) context (contexts s)) s)).
  { unfold J. cbn [with_contexts contexts]. apply lookup_alter_ne. congruence. }
  destruct (decide (ReactRootList_first s = [])) as [Hroots | Hroots].
  - rewrite setContext_without_roots by assumption.
    assert (H2 : J (contextDidUpdate context newValue
                      (with_contexts (alter (assign_globalValue newValue) context
                                        (contexts s)) s))).
    { unfold J, contextDidUpdate. cbn [with_contexts contexts].
      rewrite lookup_alter_ne by congruence. exact H1. }
    destruct userCallback; exact H2.
  - rewrite setContext_with_roots by assumption.
    apply (scheduleRoots_preserves (fun w' => context_of w' <> c) J Hinvoke).
    + intros; assumption.
    + exact Hsync.
    + unfold scheduling_start. destruct userCallback; exact H1.
Qed.

(** Two contexts and a root that finishes at once: a publish on the first
    context, completed, has not touched the second. *)
Lemma publish_frame_witness :
  let s := (createContext true (JsString "dark") JsNull
              (sample_store [synchronous_root 1])).2 in
  let s' := setContext 0 (JsNumber 7) (CallbackFn 9) s in
  currentValue s' 0 = Some (JsNumber 7)
  ∧ contexts s' !! 1 = contexts s !! 1.
Proof.
  intros s s'. split; [reflexivity|].
  apply (publish_frame s 0 (JsNumber 7) (CallbackFn 9) [] 1).
  - discriminate.
  - repeat constructor. discriminate.
  - constructor.
Defined.

(** ** Publishes with no root mounted *)

Lemma alter_alter {A} (f g : A -> A) (h : gmap nat A) c :
  alter f c (alter g c h) = alter (fun x => f (g x)) c h.
Proof.
  apply map_eq. intros j. destruct (decide (c = j)) as [-> | Hne].
  - rewrite !lookup_alter_eq. destruct (h !! j); reflexivity.
  - rewrite !lookup_alter_ne by assumption. reflexivity.
Qed.

(** X8.  With no root mounted, publishes take effect one after the other
    and the last one wins: after two publishes on a context the context
    heap is the one the second publish alone would have left, the user
    callbacks have been called once each, in the order of the publishes and
    each against the heap its own publish left, and no counter was
    created. *)
Theorem publishes_without_roots_compose s context v1 u1 v2 u2 :
  ReactRootList_first s = [] ->
  let s' := setContext context v2 u2 (setContext context v1 u1 s) in
  contexts s' = contexts (setContext context v2 u2 s)
  ∧ trace s' =
    trace s
    ++ match u1 with
       | CallbackFn cb => [EvCall cb [] (contexts (setContext context v1 u1 s))]
       | _ => []
       end
    ++ match u2 with
       | CallbackFn cb => [EvCall cb [] (contexts s')]
       | _ => []
       end
  ∧ counters s' = counters s.
Proof.
  intros Hroots s'. subst s'.
  assert (Hroots1 : ReactRootList_first (setContext context v1 u1 s) = [])
    by (rewrite roots_setContext; exact Hroots).
  rewrite (setContext_without_roots (setContext context v1 u1 s)) by exact Hroots1.
  rewrite !(setContext_without_roots s) by exact Hroots.
  split; [|split].
  - destruct u1, u2; cbn [call contextDidUpdate with_contexts log contexts];
      rewrite !alter_alter; apply alter_ext; intros o _; reflexivity.
  - destruct u1, u2; cbn [call contextDidUpdate with_contexts log trace];
      rewrite ?app_nil_r, <- ?app_assoc; reflexivity.
  - destruct u1, u2; reflexivity.
Qed.

Lemma publishes_without_roots_compose_witness :
  let s := sample_store [] in
  let s' := setContext 0 (JsNumber 2) CallbackNull
              (setContext 0 (JsNumber 1) (CallbackFn 9) s) in
  contexts s' = contexts (setContext 0 (JsNumber 2) CallbackNull s)
  ∧ trace s' = [EvCall 9 [] (contexts (setContext 0 (JsNumber 1) (CallbackFn 9) s))]
  ∧ counters s' = ∅.
Proof.
  intros s s'.
  exact (publishes_without_roots_compose s 0 (JsNumber 1) (CallbackFn 9)
           (JsNumber 2) CallbackNull eq_refl).
Defined.

(** ** The accessors of the Consumer object *)

Lemma createContext_production_silent d ccb s :
  trace (createContext false d ccb s).2 = trace s.
Proof.
  unfold createContext. cbn [snd with_contexts trace].
  destruct (decide (ccb = JsUndefined)); reflexivity.
Qed.

Lemma warnings_app format tr1 tr2 :
  warnings format (tr1 ++ tr2) = (warnings format tr1 + warnings format tr2)%nat.
Proof. unfold warnings. rewrite List.filter_app, length_app. reflexivity. Qed.

Lemma Consumer_messages_differ :
  Consumer_Consumer_message <> Consumer_Provider_message.
Proof. apply String.eqb_neq. vm_compute. reflexivity. Qed.

Lemma warnings_one format format' args :
  warnings format [EvWarning format' args] = if decide (format' = format) then 1%nat else 0%nat.
Proof.
  unfold warnings. cbn. destruct (decide (format' = format)) as [H | H].
  - rewrite bool_decide_eq_true_2 by exact H. reflexivity.
  - rewrite bool_decide_eq_false_2 by exact H. reflexivity.
Qed.

(** One use of the development Consumer object: the two variables only ever
    go from [false] to [true], each at the first read of its property, and
    that read is the one that warns. *)
Lemma access_proxy t context b a x cl :
  consumer_closures x !! context = Some cl ->
  let x' := access (ConsumerProxy t context b) a x in
  consumer_closures x' !! context =
    Some {| hasWarnedAboutUsingNestedContextConsumers :=
              hasWarnedAboutUsingNestedContextConsumers cl || is_ReadConsumer a;
            hasWarnedAboutUsingConsumerProvider :=
              hasWarnedAboutUsingConsumerProvider cl || is_ReadProvider a |}
  ∧ (forall c, c <> context -> consumer_closures x' !! c = consumer_closures x !! c)
  ∧ trace (module_store x') =
    trace (module_store x)
    ++ (if is_ReadProvider a && negb (hasWarnedAboutUsingConsumerProvider cl)
        then [EvWarning Consumer_Provider_message []] else [])
    ++ (if is_ReadConsumer a && negb (hasWarnedAboutUsingNestedContextConsumers cl)
        then [EvWarning Consumer_Consumer_message []] else []).
Proof.
  intros Hcl x'. subst x'. destruct cl as [nested provider].
  destruct a;
    unfold access, Consumer_get_Provider, Consumer_get_Consumer,
      Consumer_set_Provider, Consumer_set_currentValue, Consumer_set_currentValue2,
      with_module_store, warning;
    rewrite ?Hcl;
    cbn [hasWarnedAboutUsingNestedContextConsumers hasWarnedAboutUsingConsumerProvider
         is_ReadProvider is_ReadConsumer snd];
    destruct nested, provider;
    cbn [module_store consumer_closures with_contexts log trace orb andb negb app snd];
    rewrite ?app_nil_r, ?Hcl, ?lookup_insert_eq;
    (split; [reflexivity | split; [|reflexivity]]);
    intros c Hc; rewrite ?lookup_insert_ne by congruence; reflexivity.
Qed.

Lemma accesses_proxy t context b l x cl :
  consumer_closures x !! context = Some cl ->
  let x' := accesses (ConsumerProxy t context b) l x in
  (forall c, c <> context -> consumer_closures x' !! c = consumer_closures x !! c)
  ∧ warnings Consumer_Provider_message (trace (module_store x')) =
    (warnings Consumer_Provider_message (trace (module_store x))
     + (if negb (hasWarnedAboutUsingConsumerProvider cl) && existsb is_ReadProvider l
        then 1 else 0))%nat
  ∧ warnings Consumer_Consumer_message (trace (module_store x')) =
    (warnings Consumer_Consumer_message (trace (module_store x))
     + (if negb (hasWarnedAboutUsingNestedContextConsumers cl) && existsb is_ReadConsumer l
        then 1 else 0))%nat.
Proof.
  revert x cl. induction l as [|a l IH]; intros x cl Hcl; cbn [accesses existsb].
  - rewrite !andb_false_r, !Nat.add_0_r. repeat split; reflexivity.
  - destruct (access_proxy t context b a x cl Hcl) as (Hcl' & Hother & Htrace).
    destruct (IH _ _ Hcl') as (IHother & IHp & IHc).
    cbn [hasWarnedAboutUsingNestedContextConsumers
         hasWarnedAboutUsingConsumerProvider] in IHp, IHc.
    split; [|split].
    + intros c Hc. rewrite IHother by exact Hc. apply Hother, Hc.
    + rewrite IHp, Htrace, !warnings_app.
      pose proof Consumer_messages_differ as Hd.
      destruct (hasWarnedAboutUsingConsumerProvider cl), (is_ReadProvider a),
        (hasWarnedAboutUsingNestedContextConsumers cl), (is_ReadConsumer a),
        (existsb is_ReadProvider l);
        cbn [orb andb negb]; rewrite ?warnings_one;
        repeat case_decide; cbn; try lia; congruence.
    + rewrite IHc, Htrace, !warnings_app.
      pose proof Consumer_messages_differ as Hd.
      destruct (hasWarnedAboutUsingConsumerProvider cl), (is_ReadProvider a),
        (hasWarnedAboutUsingNestedContextConsumers cl), (is_ReadConsumer a),
        (existsb is_ReadConsumer l);
        cbn [orb andb negb]; rewrite ?warnings_one;
        repeat case_decide; cbn; try lia; congruence.
Qed.

(** X9.  The development Consumer object warns about [Consumer.Provider]
    once.  Over any series of reads and writes of its properties, the
    warning is reported at the first read of [Provider], if it was not
    reported before, and never again; the variables of the Consumer objects
    of other contexts are not touched, so each context has a warning of its
    own; and a read of [Provider] returns the context's Provider. *)
Theorem Consumer_Provider_warns_once t context b cl l x :
  consumer_closures x !! context = Some cl ->
  let consumer := ConsumerProxy t context b in
  let x' := accesses consumer l x in
  warnings Consumer_Provider_message (trace (module_store x')) =
    (warnings Consumer_Provider_message (trace (module_store x))
     + (if negb (hasWarnedAboutUsingConsumerProvider cl) && existsb is_ReadProvider l
        then 1 else 0))%nat
  ∧ (forall c, c <> context -> consumer_closures x' !! c = consumer_closures x !! c)
  ∧ (Consumer_get_Provider consumer x').1 =
    Provider <$> contexts (module_store x') !! context.
Proof.
  intros Hcl consumer x'.
  destruct (accesses_proxy t context b l x cl Hcl) as (Hother & Hp & _).
  split; [exact Hp | split; [exact Hother|]].
  unfold consumer, Consumer_get_Provider.
  destruct (consumer_closures x' !! context) as [cl'|]; [|reflexivity].
  destruct (hasWarnedAboutUsingConsumerProvider cl'); reflexivity.
Qed.

Lemma Consumer_Provider_warns_once_witness :
  let x' := accesses sample_Consumer
              [ReadProvider; ReadCurrentValue; ReadProvider; ReadConsumer; ReadProvider]
              sample_closure_store in
  warnings Consumer_Provider_message (trace (module_store x')) = 1
  ∧ (Consumer_get_Provider sample_Consumer x').1 =
    Some {| provider_typeof := REACT_PROVIDER_TYPE; provider_context := 0 |}.
Proof.
  intros x'.
  destruct (Consumer_Provider_warns_once REACT_CONTEXT_TYPE 0 JsNull _
              [ReadProvider; ReadCurrentValue; ReadProvider; ReadConsumer; ReadProvider]
              sample_closure_store eq_refl) as (H1 & _ & H3).
  split; [exact H1 | exact H3].
Defined.

(** X10.  The development Consumer object warns about [Consumer.Consumer]
    once, at the first read of [Consumer] if it was not reported before, over
    any series of reads and writes of its properties; reads of [Provider] do
    not use up this warning, which has a variable of its own; and a read of
    [Consumer] returns the context's Consumer. *)
Theorem Consumer_Consumer_warns_once t context b cl l x :
  consumer_closures x !! context = Some cl ->
  let consumer := ConsumerProxy t context b in
  let x' := accesses consumer l x in
  warnings Consumer_Consumer_message (trace (module_store x')) =
    (warnings Consumer_Consumer_message (trace (module_store x))
     + (if negb (hasWarnedAboutUsingNestedContextConsumers cl)
           && existsb is_ReadConsumer l
        then 1 else 0))%nat
  ∧ (Consumer_get_Consumer consumer x').1 =
    Consumer <$> contexts (module_store x') !! context.
Proof.
  intros Hcl consumer x'.
  destruct (accesses_proxy t context b l x cl Hcl) as (_ & _ & Hc).
  split; [exact Hc|].
  unfold consumer, Consumer_get_Consumer.
  destruct (consumer_closures x' !! context) as [cl'|]; [|reflexivity].
  destruct (hasWarnedAboutUsingNestedContextConsumers cl'); reflexivity.
Qed.

Lemma Consumer_Consumer_warns_once_witness :
  let x' := accesses sample_Consumer [ReadProvider; ReadProvider] sample_closure_store in
  let x'' := accesses sample_Consumer [ReadConsumer; ReadConsumer] x' in
  warnings Consumer_Consumer_message (trace (module_store x')) = 0
  ∧ warnings Consumer_Consumer_message (trace (module_store x'')) = 1
  ∧ (Consumer_get_Consumer sample_Consumer x'').1 = Some sample_Consumer.
Proof.
  intros x' x''.
  destruct (Consumer_Consumer_warns_once REACT_CONTEXT_TYPE 0 JsNull _
              [ReadProvider; ReadProvider] sample_closure_store eq_refl) as (H1 & _).
  destruct (Consumer_Consumer_warns_once REACT_CONTEXT_TYPE 0 JsNull _
              [ReadProvider; ReadProvider; ReadConsumer; ReadConsumer]
              sample_closure_store eq_refl) as (H2 & H3).
  split; [exact H1 | split; [exact H2 | exact H3]].
Defined.

Lemma accesses_ConsumerIsContext context l x :
  let x' := accesses (ConsumerIsContext context) l x in
  trace (module_store x') = trace (module_store x)
  ∧ consumer_closures x' = consumer_closures x.
Proof.
  revert x. induction l as [|a l IH]; intros x; cbn [accesses]; [split; reflexivity|].
  destruct (IH (access (ConsumerIsContext context) a x)) as [Ht Hc].
  cbv zeta in Ht, Hc. rewrite Ht, Hc. destruct a; split; reflexivity.
Qed.

(** X11.  In production [createContext] makes the context its own Consumer
    and using that Consumer never warns: [createContext] logs nothing, the
    Consumer it stores in the new context is the context itself, and no
    series of reads and writes of the properties of the stored Consumer adds
    to the trace or touches the warning variables. *)
Theorem production_Consumer_never_warns defaultValue calculateChangedBits l x :
  let context := (createContext_closure false defaultValue calculateChangedBits x).1 in
  let x' := (createContext_closure false defaultValue calculateChangedBits x).2 in
  Consumer <$> contexts (module_store x') !! context = Some (ConsumerIsContext context)
  ∧ trace (module_store x') = trace (module_store x)
  ∧ forall consumer,
      Consumer <$> contexts (module_store x') !! context = Some consumer ->
      trace (module_store (accesses consumer l x')) = trace (module_store x)
      ∧ consumer_closures (accesses consumer l x') = consumer_closures x'.
Proof.
  intros context x'.
  assert (H1 : Consumer <$> contexts (module_store x') !! context
               = Some (ConsumerIsContext context)).
  { unfold x', context, createContext_closure. cbn [fst snd module_store].
    unfold createContext. cbn [fst snd with_contexts contexts].
    rewrite lookup_insert_eq. reflexivity. }
  assert (H2 : trace (module_store x') = trace (module_store x)).
  { unfold x', createContext_closure. cbn [snd module_store].
    rewrite createContext_production_silent. reflexivity. }
  split; [exact H1 | split; [exact H2|]].
  intros consumer Hc. rewrite H1 in Hc. injection Hc as <-.
  destruct (accesses_ConsumerIsContext context l x') as [Ht Hcl].
  cbv zeta in Ht, Hcl. rewrite Ht, H2. split; [reflexivity | exact Hcl].
Qed.

(** X12.  A write of [Consumer.Provider] goes through to the context: on
    either kind of Consumer object it replaces [context.Provider] and
    nothing else of the object, logs nothing, and the next read of
    [Consumer.Provider] returns what was written. *)
Theorem Consumer_Provider_write_through consumer _Provider x o :
  contexts (module_store x) !! consumer_context_of consumer = Some o ->
  let x' := Consumer_set_Provider consumer _Provider x in
  contexts (module_store x') !! consumer_context_of consumer
    = Some (assign_Provider _Provider o)
  ∧ (Consumer_get_Provider consumer x').1 = Some _Provider
  ∧ trace (module_store x') = trace (module_store x)
  ∧ forall c, c <> consumer_context_of consumer ->
              contexts (module_store x') !! c = contexts (module_store x) !! c.
Proof.
  intros Ho x'.
  assert (H1 : contexts (module_store x') !! consumer_context_of consumer
               = Some (assign_Provider _Provider o)).
  { unfold x', Consumer_set_Provider, with_module_store.
    cbn [module_store with_contexts contexts]. rewrite lookup_alter_eq, Ho. reflexivity. }
  split; [exact H1 | split; [|split; [reflexivity|]]].
  - unfold Consumer_get_Provider.
    destruct consumer as [c | t c b]; cbn [consumer_context_of] in *.
    + cbn [fst]. rewrite H1. reflexivity.
    + destruct (consumer_closures x' !! c) as [cl|];
        [destruct (hasWarnedAboutUsingConsumerProvider cl)|];
        cbn [fst module_store warning log contexts];
        rewrite H1; reflexivity.
  - intros c Hc. unfold x', Consumer_set_Provider, with_module_store.
    cbn [module_store with_contexts contexts]. apply lookup_alter_ne. congruence.
Qed.

Lemma Consumer_Provider_write_through_witness :
  let p := {| provider_typeof := REACT_PROVIDER_TYPE; provider_context := 5 |} in
  let x' := Consumer_set_Provider sample_Consumer p sample_closure_store in
  (Consumer_get_Provider sample_Consumer x').1 = Some p
  ∧ Provider <$> contexts (module_store x') !! 0 = Some p.
Proof.
  intros p x'.
  destruct (Consumer_Provider_write_through sample_Consumer p sample_closure_store _
              eq_refl) as (H1 & H2 & _).
  split; [exact H2|]. exact (f_equal (fmap Provider) H1).
Defined.

(** X13.  A write of [Consumer._currentValue] or [Consumer._currentValue2]
    is no commit: on either kind of Consumer object it sets that one slot of
    the context and leaves the other slot and [_globalValue] as they were,
    so the two current slots can differ after it; the next read of the same
    property returns what was written. *)
Theorem Consumer_slot_write_is_no_commit consumer v x o :
  contexts (module_store x) !! consumer_context_of consumer = Some o ->
  let context := consumer_context_of consumer in
  let x1 := Consumer_set_currentValue consumer v x in
  let x2 := Consumer_set_currentValue2 consumer v x in
  (Consumer_get_currentValue consumer x1 = Some v
   ∧ Consumer_get_currentValue2 consumer x1 = Some (_currentValue2 o)
   ∧ globalValue (module_store x1) context = Some (_globalValue o))
  ∧ (Consumer_get_currentValue2 consumer x2 = Some v
     ∧ Consumer_get_currentValue consumer x2 = Some (_currentValue o)
     ∧ globalValue (module_store x2) context = Some (_globalValue o)).
Proof.
  intros Ho context x1 x2.
  unfold Consumer_get_currentValue, Consumer_get_currentValue2,
    currentValue, currentValue2, globalValue, x1, x2,
    Consumer_set_currentValue, Consumer_set_currentValue2, with_module_store.
  cbn [module_store with_contexts contexts]. fold context in Ho |- *.
  rewrite !lookup_alter_eq, Ho. repeat split; reflexivity.
Qed.

Lemma Consumer_slot_write_is_no_commit_witness :
  let x1 := Consumer_set_currentValue sample_Consumer (JsNumber 3) sample_closure_store in
  currentValue (module_store x1) 0 = Some (JsNumber 3)
  ∧ currentValue2 (module_store x1) 0 = Some (JsNumber 0).
Proof.
  intros x1.
  destruct (Consumer_slot_write_is_no_commit sample_Consumer (JsNumber 3)
              sample_closure_store _ eq_refl) as ((H1 & H2 & _) & _).
  split; [exact H1 | exact H2].
Defined.

(** X14.  The callbacks handed to the roots write the current slots and
    nothing else of a context: however often and in whatever order the
    roots call them, [_globalValue] of every context stays what the last
    publish made it, and no root is scheduled again. *)
Theorem callbacks_never_write_globalValue schedule s context :
  globalValue (run schedule s) context = globalValue s context
  ∧ root_calls (trace (run schedule s)) = root_calls (trace s).
Proof. apply run_keeps_intent. Qed.
